(** * Token-budget trimming of a chat conversation (src/utils/openai.ts)

    A shallow embedding of [estimateTokens], [checkTokenLimit] and
    [optimizeMessages], and the properties of the trimmer; then of
    [getOpenAIErrorMessage] and [buildSystemMessage] of the same file,
    and of the [chat] resolver of src/index.ts, from the validation of
    its input to the answer it gives.

    Conventions of the embedding.
    - A JavaScript string is its sequence of UTF-16 code units; the
      regular expression of [estimateTokens] has no [u] flag, so it
      tests code units one at a time.
    - JavaScript numbers are binary64 floats.  The embedding computes
      with exact rationals (and with [Z] once [Math.ceil] has been
      applied), and models [NaN], the only non-finite number the code
      can produce, apart.  The last part of the definitions evaluates
      the same expressions in binary64, with the [SpecFloat] operations
      of the standard library, and the two are compared below.
    - The [while] loop is a function of the number of turns it may
      take: [None] means that the loop was not left within them.
    - A string literal of the source is written as it is and turned
      into its code units by [utf16].
    - The [chat] resolver is a function of its input, of what the
      network does once the request is sent, and of the time; what it
      writes to the console is left out. *)

From Stdlib Require Import QArith Qround Qminmax.
From Stdlib Require Import Floats.SpecFloat.
From stdpp Require Import base decidable option list numbers strings gmap.
From stdpp Require Import pretty.

Local Open Scope Z_scope.

(** ** Strings and the token estimate *)

Abbreviation code_unit := N (only parsing).
Abbreviation jsstring := (list code_unit) (only parsing).

(** The character class of the regular expression: the code units
    from U+4E00 to U+9FFF. *)
Definition isCJK (u : code_unit) : Prop := (0x4e00 ≤ u ∧ u ≤ 0x9fff)%N.

#[global] Instance isCJK_dec u : Decision (isCJK u).
Proof. unfold isCJK. apply _. Defined.

(** [text.match(re)] for a global one-character class: the array of all
    matched substrings, or [null] when there is none. *)
Definition matchAll (cls : code_unit → Prop) `{!∀ u, Decision (cls u)}
    (text : jsstring) : option (list jsstring) :=
  match filter cls text with
  | [] => None
  | us => Some ((λ u, [u]) <$> us)
  end.

(** [a || b] on an optional array. *)
Definition orElse {A} (a : option A) (b : A) : A :=
  match a with Some x => x | None => b end.

Definition chineseChars (text : jsstring) : Z :=
  Z.of_nat (length (orElse (matchAll isCJK text) [])).

Definition otherChars (text : jsstring) : Z :=
  Z.of_nat (length text) - chineseChars text.

Definition estimateTokens (text : jsstring) : Z :=
  Qceiling (inject_Z (chineseChars text) / 1.5
            + inject_Z (otherChars text) / 4)%Q.

(** ** Messages and JavaScript values *)

(** Modelled from the spec: the [OpenAIMessage] type of [../types], which
    is not part of the sources at hand; the spec gives a message a role
    among system, user and assistant and a text content, as the
    [DeepSeekMessage] interface of [src/index.ts] does. *)
Inductive Role := system | user | assistant.

#[global] Instance Role_eq_dec : EqDecision Role.
Proof. solve_decision. Defined.

Record OpenAIMessage := { role : Role; content : jsstring }.

#[global] Instance OpenAIMessage_eq_dec : EqDecision OpenAIMessage.
Proof. solve_decision. Defined.

(** A number is a finite rational or [NaN]. *)
Inductive number := Finite (q : Q) | NaN.

(** What reading a property of [tokenLimits] can give: a number, an
    object (functions included) or [undefined]. *)
Inductive jsvalue := VNumber (n : number) | VObject | VUndefined.

Definition toBoolean (v : jsvalue) : bool :=
  match v with
  | VNumber (Finite q) => negb (Qeq_bool q 0)
  | VNumber NaN => false
  | VObject => true
  | VUndefined => false
  end.

(** [a || b] *)
Definition logicalOr (a b : jsvalue) : jsvalue :=
  if toBoolean a then a else b.

(** [ToNumber]: the objects met here are functions and
    [Object.prototype], whose string forms are not numerals. *)
Definition toNumber (v : jsvalue) : number :=
  match v with
  | VNumber n => n
  | VObject => NaN
  | VUndefined => NaN
  end.

Definition times (a b : number) : number :=
  match a, b with
  | Finite x, Finite y => Finite (x * y)
  | _, _ => NaN
  end.

(** [a < b]: false as soon as one side is [NaN]. *)
Definition lessThan (a b : number) : bool :=
  match a, b with
  | Finite x, Finite y => match (x ?= y)%Q with Lt => true | _ => false end
  | _, _ => false
  end.

(** The names an object literal inherits from [Object.prototype]; all
    of them hold functions, but [__proto__], which holds the prototype
    object itself. *)
Definition Object_prototype : list string :=
  [ "constructor"; "hasOwnProperty"; "isPrototypeOf";
    "propertyIsEnumerable"; "toLocaleString"; "toString"; "valueOf";
    "__proto__"; "__defineGetter__"; "__defineSetter__";
    "__lookupGetter__"; "__lookupSetter__" ]%string.

(** [o[key]] for an object literal [o] with numeric own properties: an
    own property first, then the prototype. *)
Definition getProperty (o : gmap string Z) (key : string) : jsvalue :=
  match o !! key with
  | Some n => VNumber (Finite (inject_Z n))
  | None => if decide (key ∈ Object_prototype) then VObject else VUndefined
  end.

(** ** The limit check *)

Definition tokenLimits : gmap string Z :=
  list_to_map
    [ ("gpt-3.5-turbo", 4096); ("gpt-3.5-turbo-16k", 16384);
      ("gpt-4", 8192); ("gpt-4-32k", 32768);
      ("gpt-4-turbo-preview", 128000); ("gpt-4o", 128000);
      ("gpt-4o-mini", 128000) ]%string.

Definition checkTokenLimit (messages : list OpenAIMessage) (model : string)
    : bool :=
  let totalText := concat (content <$> messages) in
  let estimatedTokens := estimateTokens totalText in
  let limit :=
    logicalOr (getProperty tokenLimits model) (VNumber (Finite 4096)) in
  lessThan (Finite (inject_Z estimatedTokens))
           (times (toNumber limit) (Finite 0.8)).

(** ** The trimmer *)

(** The [for] loop of [optimizeMessages], from index [i] on: [n] bounds
    the number of iterations left (the loop makes fewer than
    [length opt] of them).  [splice(i, 1)] is [delete i]. *)
Fixpoint deleteScan (n i : nat) (opt : list OpenAIMessage)
    : list OpenAIMessage :=
  match n with
  | O => opt
  | S n' =>
      if bool_decide (Z.of_nat i < Z.of_nat (length opt) - 1) then
        match opt !! i with
        | Some m =>
            if bool_decide (role m ≠ system) then delete i opt
            else deleteScan n' (S i) opt
        | None => opt
        end
      else opt
  end.

Definition deleteEarliestNonSystem (opt : list OpenAIMessage)
    : list OpenAIMessage :=
  deleteScan (length opt) 1 opt.

(** One turn of the [while] loop: either the function returns, or the
    loop goes on with a new working copy. *)
Inductive outcome :=
  | Return (opt : list OpenAIMessage)
  | Continue (opt : list OpenAIMessage).

Definition whileTurn (opt : list OpenAIMessage) (model : string) : outcome :=
  if negb (checkTokenLimit opt model) && bool_decide (1 < length opt)%nat
  then
    let opt' := deleteEarliestNonSystem opt in
    if bool_decide (length opt' ≤ 2)%nat then Return opt' else Continue opt'
  else Return opt.

Fixpoint optimizeLoop (fuel : nat) (opt : list OpenAIMessage)
    (model : string) : option (list OpenAIMessage) :=
  match fuel with
  | O => None
  | S fuel' =>
      match whileTurn opt model with
      | Return r => Some r
      | Continue opt' => optimizeLoop fuel' opt' model
      end
  end.

(** [optimizeMessages fuel messages model] is [Some r] when the call
    returns [r] after at most [fuel] turns of its loop.  The working
    copy [[...messages]] shares the message objects, which are never
    written to; the two constants [systemMessage] and [lastUserMessage]
    of the loop body are read and never used. *)
Definition optimizeMessages (fuel : nat) (messages : list OpenAIMessage)
    (model : string) : option (list OpenAIMessage) :=
  optimizeLoop fuel messages model.

(** The working copy after [k] turns of the loop (the returned list,
    once the loop has been left). *)
Fixpoint workingCopy (k : nat) (opt : list OpenAIMessage) (model : string)
    : list OpenAIMessage :=
  match k with
  | O => opt
  | S k' =>
      match whileTurn opt model with
      | Return r => r
      | Continue opt' => workingCopy k' opt' model
      end
  end.

(** ** The same arithmetic in binary64 *)

Definition b64_of_Z (n : Z) : spec_float := binary_normalize 53 1024 n 0 false.
Definition b64_div : spec_float → spec_float → spec_float := SFdiv 53 1024.
Definition b64_add : spec_float → spec_float → spec_float := SFadd 53 1024.
Definition b64_mul : spec_float → spec_float → spec_float := SFmul 53 1024.

(** The rational a finite float stands for. *)
Definition b64_value (x : spec_float) : option Q :=
  match x with
  | S754_zero _ => Some 0%Q
  | S754_finite s m e => Some (inject_Z (cond_Zopp s (Zpos m)) * Qpower 2 e)%Q
  | S754_infinity _ => None
  | S754_nan => None
  end.

(** The literals [1.5] and [0.8]: the floats nearest to 3/2 and 4/5. *)
Definition b64_1_5 : spec_float := b64_div (b64_of_Z 3) (b64_of_Z 2).
Definition b64_0_8 : spec_float := b64_div (b64_of_Z 4) (b64_of_Z 5).

(** [Math.ceil(chineseChars / 1.5 + otherChars / 4)] on floats. *)
Definition estimate64 (c o : Z) : option Z :=
  Qceiling <$> b64_value (b64_add (b64_div (b64_of_Z c) b64_1_5)
                                  (b64_div (b64_of_Z o) (b64_of_Z 4))).

(** [limit * 0.8] on floats. *)
Definition limit64 (limit : Z) : option Q :=
  b64_value (b64_mul (b64_of_Z limit) b64_0_8).

(** ** Notions used in the statements *)

(** The number of code units of [text] in the CJK class, and the number
    of the remaining ones. *)
Definition cjkCount (text : jsstring) : Z :=
  Z.of_nat (length (filter isCJK text)).

Definition otherCount (text : jsstring) : Z :=
  Z.of_nat (length (filter (λ u, ¬ isCJK u) text)).

(** Two texts have the same script composition when their CJK and other
    counts are in the same proportion. *)
Definition sameComposition (s t : jsstring) : Prop :=
  cjkCount s * otherCount t = cjkCount t * otherCount s.

(** The ceiling the limit table gives a model, 4096 when it has none. *)
Definition modelCeiling (model : string) : Z :=
  default 4096 (tokenLimits !! model).

Definition isSystem (m : OpenAIMessage) : Prop := role m = system.

#[global] Instance isSystem_dec m : Decision (isSystem m).
Proof. unfold isSystem. apply _. Defined.

(** What the scan of the [for] loop does, by index: it deletes the
    first message from index [i] on, the last index left out, that is
    not a system message, and leaves the list alone when there is
    none. *)
Inductive scan_result (i : nat) (opt : list OpenAIMessage)
    : list OpenAIMessage → Prop :=
  | scan_deleted j m :
      (i ≤ j)%nat → (S j < length opt)%nat →
      opt !! j = Some m → ¬ isSystem m →
      (∀ k m', (i ≤ k < j)%nat → opt !! k = Some m' → isSystem m') →
      scan_result i opt (delete j opt)
  | scan_nothing :
      (∀ k m', (i ≤ k)%nat → (S k < length opt)%nat →
               opt !! k = Some m' → isSystem m') →
      scan_result i opt opt.

(** Following the words of the spec for one turn of the loop: the index
    of the first message at index 1 or more whose role is not system. *)
Definition firstNonSystemAfterHead (opt : list OpenAIMessage) : option nat :=
  (λ p, S p.1) <$> list_find (λ m, ¬ isSystem m) (tail opt).

(** [trimmed msgs opt]: [opt] is [msgs] with some messages deleted, none
    of them a system message, the first one or the last one, and never
    below two messages. *)
Record trimmed (msgs opt : list OpenAIMessage) : Prop := {
  trimmed_sublist : opt `sublist_of` msgs;
  trimmed_system : filter isSystem opt = filter isSystem msgs;
  trimmed_head : head opt = head msgs;
  trimmed_last : last opt = last msgs;
  trimmed_two : (2 ≤ length msgs)%nat → (2 ≤ length opt)%nat
}.

(** No system message strictly between the first and the last message. *)
Definition noInnerSystem (opt : list OpenAIMessage) : Prop :=
  ∀ k m, (1 ≤ k)%nat → (S k < length opt)%nat → opt !! k = Some m → ¬ isSystem m.

(** ** Sample conversations *)

(** An ASCII text as code units, and [n] times the letter a. *)
Definition units (s : string) : jsstring :=
  Ascii.N_of_ascii <$> String.list_ascii_of_string s.

Definition filler (n : N) : jsstring := replicate (N.to_nat n) 0x61%N.

Definition msg (r : Role) (text : jsstring) : OpenAIMessage :=
  {| role := r; content := text |}.

(** A short exchange, well within every limit. *)
Definition short_conversation : list OpenAIMessage :=
  [ msg system (units "You are a helpful assistant.");
    msg user (units "Hello");
    msg assistant (units "Hi, how can I help?");
    msg user (units "What is a token?") ].

(** The same exchange with a last message of 13200 letters, an estimate
    of 3300 tokens or more: over the limit of gpt-3.5-turbo. *)
Definition long_conversation : list OpenAIMessage :=
  [ msg system (units "You are a helpful assistant.");
    msg user (units "Hello");
    msg assistant (units "Hi, how can I help?");
    msg user (filler 13200) ].

(** A system prompt and one long message. *)
Definition two_messages : list OpenAIMessage :=
  [ msg system (units "You are a helpful assistant.");
    msg user (filler 13200) ].

(** A history whose system message comes after the first exchange. *)
Definition stuck_conversation : list OpenAIMessage :=
  [ msg user (units "Hello");
    msg assistant (units "Hi, how can I help?");
    msg system (units "Reply in French.");
    msg user (filler 13200) ].

(** A single system message, between two user messages. *)
Definition inner_system_conversation : list OpenAIMessage :=
  [ msg user (filler 13200);
    msg system (units "Be brief.");
    msg user (units "And now?") ].

(** ** String literals *)

(** The UTF-16 code units of a text given by its UTF-8 bytes, as the
    string literals of this file are: one unit for a sequence of one,
    two or three bytes, a surrogate pair for a sequence of four. *)
Fixpoint utf16_of_utf8 (bytes : list N) : jsstring :=
  match bytes with
  | [] => []
  | b0 :: r0 =>
      if (b0 <? 0x80)%N then b0 :: utf16_of_utf8 r0
      else if (b0 <? 0xE0)%N then
        match r0 with
        | b1 :: r1 =>
            ((b0 - 0xC0) * 0x40 + (b1 - 0x80))%N :: utf16_of_utf8 r1
        | _ => []
        end
      else if (b0 <? 0xF0)%N then
        match r0 with
        | b1 :: b2 :: r2 =>
            ((b0 - 0xE0) * 0x1000 + (b1 - 0x80) * 0x40 + (b2 - 0x80))%N
            :: utf16_of_utf8 r2
        | _ => []
        end
      else
        match r0 with
        | b1 :: b2 :: b3 :: r3 =>
            let v := ((b0 - 0xF0) * 0x40000 + (b1 - 0x80) * 0x1000
                      + (b2 - 0x80) * 0x40 + (b3 - 0x80) - 0x10000)%N in
            (0xD800 + v / 0x400)%N :: (0xDC00 + v mod 0x400)%N
            :: utf16_of_utf8 r3
        | _ => []
        end
  end.

Definition utf16 (s : string) : jsstring :=
  utf16_of_utf8 (Ascii.N_of_ascii <$> String.list_ascii_of_string s).

(** ** Error messages (getOpenAIErrorMessage) and the system message *)

(** [s.includes(needle)]: [needle] occurs in [s] as a run of
    consecutive code units. *)
Fixpoint startsWith (s needle : jsstring) : bool :=
  match needle, s with
  | [], _ => true
  | _ :: _, [] => false
  | n :: needle', u :: s' => bool_decide (n = u) && startsWith s' needle'
  end.

Fixpoint includes (s needle : jsstring) : bool :=
  startsWith s needle
  || match s with
     | [] => false
     | _ :: s' => includes s' needle
     end.

(** The decimal form a template literal gives an integer. *)
Definition numberToString (n : Z) : jsstring := utf16 (pretty n).

(** The error body as the OpenAI API sends it, as far as the code reads
    it: an object with an optional [error], whose [message] and [code]
    are optional strings. *)
Record OpenAIError := { message : option jsstring; code : option jsstring }.
Record OpenAIErrorData := { error : option OpenAIError }.

(** [errorData.error?.message || '未知错误']: an empty message is falsy. *)
Definition errorMessageOf (errorData : OpenAIErrorData) : jsstring :=
  match error errorData ≫= message with
  | Some (u :: s) => u :: s
  | _ => utf16 "未知错误"
  end.

Definition getOpenAIErrorMessage (status : Z) (errorData : OpenAIErrorData)
    : jsstring :=
  let errorMessage := errorMessageOf errorData in
  if bool_decide (status = 400) then
    if includes errorMessage (utf16 "maximum context length")
    then utf16 "对话内容过长，请缩短消息或清空历史记录"
    else utf16 "请求参数错误: " ++ errorMessage
  else if bool_decide (status = 401) then utf16 "API 密钥无效或已过期"
  else if bool_decide (status = 403) then
    utf16 "没有权限访问该模型，请检查您的 OpenAI 账户权限"
  else if bool_decide (status = 429) then
    if includes errorMessage (utf16 "Rate limit")
    then utf16 "请求过于频繁，请稍后再试"
    else if includes errorMessage (utf16 "quota")
    then utf16 "API 配额已用完，请检查您的 OpenAI 账户余额"
    else utf16 "请求频率过高，请稍后再试"
  else if bool_decide (status ∈ [500; 502; 503; 504]) then
    utf16 "OpenAI 服务器暂时不可用，请稍后再试"
  else
    utf16 "OpenAI API 错误 (" ++ numberToString status ++ utf16 "): "
    ++ errorMessage.

Definition buildSystemMessage : OpenAIMessage :=
  {| role := system;
     content := utf16 "你是一个友好、有帮助的AI助手。请遵循以下指导原则：

1. 用简洁、准确的中文回答用户的问题
2. 如果问题涉及敏感内容，请礼貌地拒绝并解释原因
3. 不要提供有害、违法或不当的建议
4. 承认自己的局限性，如果不确定答案，请诚实说明
5. 保持对话的连贯性和上下文理解
6. 尽量提供有价值、有建设性的回复

请始终保持专业、友好的态度。" |}.

(** The value of [getOpenAIErrorMessage], case by case. *)
Inductive errorCase (status : Z) (m : jsstring) : jsstring → Prop :=
  | case_400_long :
      status = 400 → includes m (utf16 "maximum context length") = true →
      errorCase status m (utf16 "对话内容过长，请缩短消息或清空历史记录")
  | case_400_other :
      status = 400 → includes m (utf16 "maximum context length") = false →
      errorCase status m (utf16 "请求参数错误: " ++ m)
  | case_401 : status = 401 → errorCase status m (utf16 "API 密钥无效或已过期")
  | case_403 :
      status = 403 →
      errorCase status m (utf16 "没有权限访问该模型，请检查您的 OpenAI 账户权限")
  | case_429_rate :
      status = 429 → includes m (utf16 "Rate limit") = true →
      errorCase status m (utf16 "请求过于频繁，请稍后再试")
  | case_429_quota :
      status = 429 → includes m (utf16 "Rate limit") = false →
      includes m (utf16 "quota") = true →
      errorCase status m (utf16 "API 配额已用完，请检查您的 OpenAI 账户余额")
  | case_429_other :
      status = 429 → includes m (utf16 "Rate limit") = false →
      includes m (utf16 "quota") = false →
      errorCase status m (utf16 "请求频率过高，请稍后再试")
  | case_5xx :
      status ∈ [500; 502; 503; 504] →
      errorCase status m (utf16 "OpenAI 服务器暂时不可用，请稍后再试")
  | case_default :
      status ∉ [400; 401; 403; 429; 500; 502; 503; 504] →
      errorCase status m
        (utf16 "OpenAI API 错误 (" ++ numberToString status ++ utf16 "): " ++ m).

(** ** The chat resolver (src/index.ts) *)

Module Worker.

(** [WhiteSpace] and [LineTerminator] code units, which [trim] strips. *)
Definition isWhiteSpace (u : code_unit) : Prop :=
  u ∈ [0x9; 0xA; 0xB; 0xC; 0xD; 0x20; 0xA0; 0x1680; 0x2028; 0x2029; 0x202F;
       0x205F; 0x3000; 0xFEFF]%N
  ∨ (0x2000 ≤ u ∧ u ≤ 0x200A)%N.

#[global] Instance isWhiteSpace_dec u : Decision (isWhiteSpace u).
Proof. unfold isWhiteSpace. apply _. Defined.

Fixpoint trimStart (s : jsstring) : jsstring :=
  match s with
  | [] => []
  | u :: s' => if decide (isWhiteSpace u) then trimStart s' else s
  end.

Definition trimEnd (s : jsstring) : jsstring :=
  reverse (trimStart (reverse s)).

Definition trim (s : jsstring) : jsstring := trimEnd (trimStart s).

(** A message on the wire: the history comes from the client with any
    role text, GraphQL only checks that role and content are strings. *)
Record DeepSeekMessage := { role : jsstring; content : jsstring }.

(** [ChatInput] as GraphQL hands it to the resolver: [None] is a field
    that is absent or null, a [Float] is finite, an [Int] an integer. *)
Record ChatInput := {
  message : jsstring;
  conversation : option (list DeepSeekMessage);
  model : option jsstring;
  temperature : option Q;
  maxTokens : option Z
}.

Definition systemPrompt : DeepSeekMessage :=
  {| role := utf16 "system";
     content := utf16 "你是一个友好、有帮助的AI助手。请用简洁、准确的中文回答用户的问题。如果问题涉及敏感内容，请礼貌地拒绝并解释原因。" |}.

Definition allowedModels : list jsstring :=
  [ utf16 "deepseek-chat"; utf16 "deepseek-coder";
    utf16 "deepseek-reasoner"; utf16 "deepseek-v3" ].

(** [a.slice(-10)] *)
Definition lastTen {A} (a : list A) : list A := drop (length a - 10) a.

(** The [messages] array at the time of the request. *)
Definition buildMessages (input : ChatInput) : list DeepSeekMessage :=
  [systemPrompt]
  ++ match conversation input with
     | Some (m :: ms) => lastTen (m :: ms)
     | _ => []
     end
  ++ [ {| role := utf16 "user"; content := trim (message input) |} ].

Definition chooseModel (input : ChatInput) : jsstring :=
  match model input with
  | Some m => if bool_decide (m ∈ allowedModels) then m else utf16 "deepseek-chat"
  | None => utf16 "deepseek-chat"
  end.

(** [x || d] on an optional number: absent and zero are falsy. *)
Definition orQ (x : option Q) (d : Q) : Q :=
  match x with
  | Some q => if Qeq_bool q 0 then d else q
  | None => d
  end.

Definition orZ (x : option Z) (d : Z) : Z :=
  match x with
  | Some 0 => d
  | Some n => n
  | None => d
  end.

Definition chooseTemperature (input : ChatInput) : Q :=
  Qmax 0 (Qmin 2 (orQ (temperature input) 0.7)).

Definition chooseMaxTokens (input : ChatInput) : Z :=
  Z.max 1 (Z.min 4000 (orZ (maxTokens input) 1000)).

(** The fields of the request body that depend on the input ([stream],
    [top_p] and the two penalties are constants). *)
Record RequestBody := {
  body_model : jsstring;
  body_messages : list DeepSeekMessage;
  body_temperature : Q;
  body_max_tokens : Z
}.

(** [!s || s.trim().length === 0] *)
Definition isBlank (s : jsstring) : bool :=
  bool_decide (s = []) || bool_decide (length (trim s) = 0%nat).

(** The resolver up to the call of [fetch]: the error it returns
    without calling, or the body it sends. *)
Definition chatRequest (input : ChatInput) : jsstring + RequestBody :=
  if isBlank (message input) then inl (utf16 "消息内容不能为空")
  else if bool_decide (4000 < length (message input))%nat
  then inl (utf16 "消息长度不能超过4000字符")
  else inr {| body_model := chooseModel input;
              body_messages := buildMessages input;
              body_temperature := chooseTemperature input;
              body_max_tokens := chooseMaxTokens input |}.

(** What the provider answered, as far as the resolver reads it. *)
Record Usage := {
  prompt_tokens : option Z;
  completion_tokens : option Z;
  total_tokens : option Z
}.

(** [choices[i].message.content] *)
Record Choice := { choice_content : jsstring }.

Record DeepSeekResponse := {
  choices : option (list Choice);
  usage : option Usage
}.

(** A thrown value: an [Error] with its message, or anything else. *)
Inductive Thrown := ErrorObject (msg : jsstring) | OtherValue.

(** What happens in the [try] block once the request is sent: [fetch],
    [response.text()] or [response.json()] rejects; the response is not
    ok; or it is ok and carries data. *)
Inductive FetchResult :=
  | Rejected (e : Thrown)
  | NotOk (status : Z)
  | Ok (data : DeepSeekResponse).

Record UsageOut := {
  promptTokens : Z;
  completionTokens : Z;
  totalTokens : Z
}.

Record ChatResponse := {
  res_success : bool;
  res_message : option jsstring;
  res_error : option jsstring;
  res_model : option jsstring;
  res_usage : option UsageOut;
  res_timestamp : jsstring
}.

Definition failure (e now : jsstring) : ChatResponse :=
  {| res_success := false; res_message := None; res_error := Some e;
     res_model := None; res_usage := None; res_timestamp := now |}.

Definition statusMessage (status : Z) : jsstring :=
  if bool_decide (status = 401) then utf16 "API 密钥无效或已过期"
  else if bool_decide (status = 403) then utf16 "没有权限访问该模型"
  else if bool_decide (status = 429) then utf16 "请求频率过高，请稍后再试"
  else if bool_decide (status = 500) then utf16 "DeepSeek 服务器内部错误"
  else utf16 "DeepSeek API 错误: " ++ numberToString status.

Definition thrownMessage (e : Thrown) : jsstring :=
  utf16 "处理请求时发生错误: "
  ++ match e with
     | ErrorObject msg => msg
     | OtherValue => utf16 "未知错误"
     end.

Definition usageOf (data : DeepSeekResponse) : UsageOut :=
  {| promptTokens := orZ (usage data ≫= prompt_tokens) 0;
     completionTokens := orZ (usage data ≫= completion_tokens) 0;
     totalTokens := orZ (usage data ≫= total_tokens) 0 |}.

(** The [chat] resolver; [net] is what the network does if a request is
    sent, [now] the time stamp of the answer. *)
Definition chat (input : ChatInput) (net : FetchResult) (now : jsstring)
    : ChatResponse :=
  match chatRequest input with
  | inl e => failure e now
  | inr body =>
      match net with
      | Rejected e => failure (thrownMessage e) now
      | NotOk status => failure (statusMessage status) now
      | Ok data =>
          match choices data with
          | None | Some [] => failure (utf16 "DeepSeek API 返回空响应") now
          | Some (c :: _) =>
              let aiMessage := choice_content c in
              if isBlank aiMessage then failure (utf16 "AI 返回空消息") now
              else
                {| res_success := true;
                   res_message := Some (trim aiMessage);
                   res_error := None;
                   res_model := Some (body_model body);
                   res_usage := Some (usageOf data);
                   res_timestamp := now |}
          end
      end
  end.

End Worker.

(** The shape of a failure: no message, no model, no usage, a text. *)
Definition isFailure (r : Worker.ChatResponse) : Prop :=
  Worker.res_success r = false ∧ Worker.res_message r = None
  ∧ Worker.res_model r = None ∧ Worker.res_usage r = None
  ∧ ∃ e, Worker.res_error r = Some e ∧ e ≠ [].

(** A request with a history of twelve messages and a question between
    blanks, and an answer of the provider. *)
Definition sample_input : Worker.ChatInput :=
  {| Worker.message := utf16 "  What is a token?  ";
     Worker.conversation :=
       Some (replicate 6 {| Worker.role := utf16 "user";
                            Worker.content := utf16 "Hello" |}
             ++ replicate 6 {| Worker.role := utf16 "assistant";
                               Worker.content := utf16 "你好" |});
     Worker.model := Some (utf16 "deepseek-coder");
     Worker.temperature := None;
     Worker.maxTokens := Some 8000 |}.

Definition sample_body : Worker.RequestBody :=
  {| Worker.body_model := utf16 "deepseek-coder";
     Worker.body_messages := Worker.buildMessages sample_input;
     Worker.body_temperature := Worker.chooseTemperature sample_input;
     Worker.body_max_tokens := 4000 |}.

Definition sample_data : Worker.DeepSeekResponse :=
  {| Worker.choices :=
       Some [ {| Worker.choice_content := utf16 " A unit of text. " |} ];
     Worker.usage := None |}.

(** ** Deleting one element of a list *)

Section delete_facts.
Context {A : Type}.
Implicit Types (l : list A) (i : nat) (x : A).

Lemma delete_split l i x :
  l !! i = Some x →
  l = take i l ++ x :: drop (S i) l ∧ delete i l = take i l ++ drop (S i) l.
Proof.
  intros Hi. split; [by rewrite take_drop_middle | apply delete_take_drop].
Qed.

Lemma length_delete_lookup l i x :
  l !! i = Some x → S (length (delete i l)) = length l.
Proof.
  intros Hi. pose proof (lookup_lt_Some _ _ _ Hi).
  rewrite length_delete by eauto. lia.
Qed.

Lemma filter_delete_False (P : A → Prop) `{!∀ y, Decision (P y)} l i x :
  l !! i = Some x → ¬ P x → filter P (delete i l) = filter P l.
Proof.
  intros Hi HP. destruct (delete_split l i x Hi) as [Hl ->].
  rewrite Hl at 3. rewrite !filter_app. f_equal.
  by rewrite filter_cons_False.
Qed.

Lemma head_delete_pos l i : (0 < i)%nat → head (delete i l) = head l.
Proof. intros Hi. destruct l, i; simpl; auto; lia. Qed.

Lemma last_delete_inner l i : (S i < length l)%nat → last (delete i l) = last l.
Proof.
  intros Hi. pose proof (take_drop (S i) l) as Hl.
  rewrite delete_take_drop, last_app.
  destruct (last (drop (S i) l)) eqn:E.
  - by rewrite <- Hl, last_app, E.
  - apply last_None in E. apply (f_equal length) in E.
    rewrite length_drop in E. simpl in E. lia.
Qed.
End delete_facts.

(** ** The [for] loop *)

Lemma deleteScan_spec n i opt :
  (length opt ≤ n + i)%nat → scan_result i opt (deleteScan n i opt).
Proof.
  revert i. induction n as [|n IH]; intros i Hn; simpl.
  - apply scan_nothing. intros; lia.
  - case_bool_decide as Hlt.
    + destruct (opt !! i) as [m|] eqn:Hi.
      * case_bool_decide as Hrole.
        -- apply (scan_deleted i opt i m); auto; intros; lia.
        -- destruct (IH (S i) ltac:(lia)) as [j m' ? ? ? ? Hbefore|Hall].
           ++ eapply scan_deleted; eauto; try lia.
              intros k mk Hk Hmk. destruct (decide (k = i)) as [->|].
              ** congruence.
              ** apply (Hbefore k); auto; lia.
           ++ apply scan_nothing. intros k mk ? ? Hmk.
              destruct (decide (k = i)) as [->|].
              ** congruence.
              ** apply (Hall k); auto; lia.
      * apply lookup_ge_None in Hi. lia.
    + apply scan_nothing. intros; lia.
Qed.

Lemma deleteEarliestNonSystem_spec opt :
  scan_result 1 opt (deleteEarliestNonSystem opt).
Proof. apply deleteScan_spec. lia. Qed.

Lemma deleteEarliestNonSystem_short opt :
  (length opt ≤ 2)%nat → deleteEarliestNonSystem opt = opt.
Proof.
  intros Hlen.
  destruct (deleteEarliestNonSystem_spec opt) as [j m ? ? ? ? _|_]; [lia|done].
Qed.

(** ** What trimming keeps *)

Lemma trimmed_refl msgs : trimmed msgs msgs.
Proof. by split. Qed.

Lemma trimmed_trans l1 l2 l3 : trimmed l1 l2 → trimmed l2 l3 → trimmed l1 l3.
Proof.
  intros [] []. split; try congruence; [by etrans | auto].
Qed.

Lemma trimmed_length msgs opt : trimmed msgs opt → (length opt ≤ length msgs)%nat.
Proof. intros H. apply sublist_length, H. Qed.

Lemma trimmed_deleteEarliestNonSystem opt :
  trimmed opt (deleteEarliestNonSystem opt).
Proof.
  destruct (deleteEarliestNonSystem_spec opt) as [j m Hj Hlt Hm Hsys _|_];
    [|apply trimmed_refl].
  split.
  - apply sublist_delete.
  - by apply filter_delete_False with m.
  - apply head_delete_pos. lia.
  - by apply last_delete_inner.
  - intros _. pose proof (length_delete_lookup _ _ _ Hm). lia.
Qed.

Lemma whileTurn_trimmed opt model :
  match whileTurn opt model with
  | Return r => trimmed opt r
  | Continue opt' => trimmed opt opt' ∧ (2 < length opt')%nat
  end.
Proof.
  unfold whileTurn.
  destruct (negb (checkTokenLimit opt model) && bool_decide (1 < length opt)%nat);
    [|apply trimmed_refl].
  simpl. case_bool_decide.
  - apply trimmed_deleteEarliestNonSystem.
  - split; [apply trimmed_deleteEarliestNonSystem | lia].
Qed.

Lemma workingCopy_trimmed k msgs model : trimmed msgs (workingCopy k msgs model).
Proof.
  revert msgs. induction k as [|k IH]; intros msgs; cbn [workingCopy].
  - apply trimmed_refl.
  - pose proof (whileTurn_trimmed msgs model) as Hturn.
    destruct (whileTurn msgs model) as [r|opt']; [done|].
    destruct Hturn as [Hturn _]. by eapply trimmed_trans.
Qed.

(** A returned list is the working copy at the turn of the return. *)
Lemma optimizeLoop_workingCopy fuel msgs model r :
  optimizeLoop fuel msgs model = Some r → r = workingCopy fuel msgs model.
Proof.
  revert msgs.
  induction fuel as [|fuel IH]; intros msgs; cbn [optimizeLoop workingCopy];
    [done|].
  destruct (whileTurn msgs model) as [r'|opt']; [congruence | apply IH].
Qed.

Lemma optimizeLoop_trimmed fuel msgs model r :
  optimizeLoop fuel msgs model = Some r → trimmed msgs r.
Proof.
  intros ->%optimizeLoop_workingCopy. apply workingCopy_trimmed.
Qed.

(** More fuel does not change a result. *)
Lemma optimizeLoop_more_fuel fuel fuel' msgs model r :
  (fuel ≤ fuel')%nat →
  optimizeLoop fuel msgs model = Some r → optimizeLoop fuel' msgs model = Some r.
Proof.
  revert fuel' msgs. induction fuel as [|fuel IH]; intros fuel' msgs Hle; [done|].
  destruct fuel' as [|fuel']; [lia|]. cbn [optimizeLoop].
  destruct (whileTurn msgs model); [done | apply IH; lia].
Qed.

(** A list the loop returns makes the loop return at once. *)
Lemma whileTurn_Return_again opt model r :
  whileTurn opt model = Return r → whileTurn r model = Return r.
Proof.
  unfold whileTurn.
  destruct (negb (checkTokenLimit opt model) && bool_decide (1 < length opt)%nat)
    eqn:Hcond.
  - simpl.
    destruct (bool_decide (length (deleteEarliestNonSystem opt) ≤ 2)%nat)
      eqn:Hlen; [|done].
    intros [= <-]. apply bool_decide_eq_true in Hlen as Hle.
    rewrite (deleteEarliestNonSystem_short _ Hle), Hlen.
    by destruct (negb (checkTokenLimit (deleteEarliestNonSystem opt) model) && _).
  - intros [= <-]. by rewrite Hcond.
Qed.

Lemma optimizeLoop_Return_again fuel msgs model r :
  optimizeLoop fuel msgs model = Some r → whileTurn r model = Return r.
Proof.
  revert msgs.
  induction fuel as [|fuel IH]; intros msgs; cbn [optimizeLoop]; [done|].
  destruct (whileTurn msgs model) as [r'|opt'] eqn:Hturn; [|apply IH].
  intros [= <-]. by eapply whileTurn_Return_again.
Qed.

(** ** When the loop is left, and when it is not *)

Lemma noInnerSystem_delete opt j m :
  (1 ≤ j)%nat → opt !! j = Some m → noInnerSystem opt →
  noInnerSystem (delete j opt).
Proof.
  intros Hj Hm Hno k m' Hk Hlen.
  pose proof (length_delete_lookup _ _ _ Hm) as Hdel.
  destruct (decide (k < j)%nat).
  - rewrite list_lookup_delete_lt by done. apply Hno; lia.
  - rewrite list_lookup_delete_ge by lia. apply Hno; lia.
Qed.

(** With no inner system message every turn that goes on has deleted a
    message, so the loop is left within [length opt - 1] turns. *)
Lemma optimizeLoop_returns n opt model :
  (length opt ≤ n + 2)%nat → noInnerSystem opt →
  ∃ r, optimizeLoop (S n) opt model = Some r.
Proof.
  revert opt. induction n as [|n IH]; intros opt Hlen Hno.
  - cbn [optimizeLoop]. pose proof (whileTurn_trimmed opt model) as Hturn.
    destruct (whileTurn opt model) as [r|opt']; [by eexists|].
    destruct Hturn as [Htr Hlt]. apply trimmed_length in Htr. lia.
  - cbn [optimizeLoop]. destruct (whileTurn opt model) as [r|opt'] eqn:Hturn;
      [by eexists|].
    unfold whileTurn in Hturn.
    destruct (negb (checkTokenLimit opt model) && bool_decide (1 < length opt)%nat);
      [simpl in Hturn|done].
    destruct (bool_decide (length (deleteEarliestNonSystem opt) ≤ 2)%nat)
      eqn:Hle; [done|].
    injection Hturn as <-. apply bool_decide_eq_false in Hle.
    destruct (deleteEarliestNonSystem_spec opt) as [j m Hj Hlt Hm Hsys _|Hall].
    + pose proof (length_delete_lookup _ _ _ Hm).
      apply IH; [lia | by eapply noInnerSystem_delete].
    + destruct opt as [|x [|y [|z opt]]]; simpl in Hle; try lia.
      exfalso. apply (Hno 1%nat y); simpl; auto; try lia.
      apply (Hall 1%nat y); simpl; auto; lia.
Qed.

(** A turn that goes on with the list it started from goes on for ever. *)
Lemma optimizeLoop_stuck opt model :
  whileTurn opt model = Continue opt → ∀ fuel, optimizeLoop fuel opt model = None.
Proof.
  intros Hturn fuel. induction fuel as [|fuel IH]; cbn [optimizeLoop]; [done|].
  by rewrite Hturn.
Qed.

(** ** The estimate in integers *)

Lemma chineseChars_count text : chineseChars text = cjkCount text.
Proof.
  unfold chineseChars, cjkCount, matchAll.
  destruct (filter isCJK text) as [|u us]; [done|].
  simpl. by rewrite length_fmap.
Qed.

Lemma length_cjk_other text :
  Z.of_nat (length text) = cjkCount text + otherCount text.
Proof.
  unfold cjkCount, otherCount.
  pose proof (Permutation_length (filter_app_complement isCJK text)) as Hlen.
  rewrite length_app in Hlen. by rewrite <- Hlen, Nat2Z.inj_add.
Qed.

Lemma otherChars_count text : otherChars text = otherCount text.
Proof.
  unfold otherChars. rewrite chineseChars_count, length_cjk_other. lia.
Qed.

Lemma cjkCount_nonneg text : 0 ≤ cjkCount text.
Proof. unfold cjkCount. lia. Qed.

Lemma otherCount_nonneg text : 0 ≤ otherCount text.
Proof. unfold otherCount. lia. Qed.

Lemma cjkCount_app s t : cjkCount (s ++ t) = cjkCount s + cjkCount t.
Proof. unfold cjkCount. rewrite filter_app, length_app. lia. Qed.

Lemma otherCount_app s t : otherCount (s ++ t) = otherCount s + otherCount t.
Proof. unfold otherCount. rewrite filter_app, length_app. lia. Qed.

(** [ceil(c / 1.5 + o / 4)] is [ceil((8 c + 3 o) / 12)]. *)
Lemma Qceiling_twelfths c o :
  Qceiling (inject_Z c / 1.5 + inject_Z o / 4)%Q = (8 * c + 3 * o + 11) `div` 12.
Proof.
  assert (inject_Z c / 1.5 + inject_Z o / 4 == (8 * c + 3 * o) # 12)%Q as ->.
  { unfold Qeq, Qdiv, Qplus, Qmult, Qinv, inject_Z. simpl. lia. }
  unfold Qceiling, Qfloor, Qopp. simpl.
  set (n := 8 * c + 3 * o).
  pose proof (Z.div_mod (- n) 12 ltac:(lia)).
  pose proof (Z.mod_pos_bound (- n) 12 ltac:(lia)).
  pose proof (Z.div_mod (n + 11) 12 ltac:(lia)).
  pose proof (Z.mod_pos_bound (n + 11) 12 ltac:(lia)).
  lia.
Qed.

Lemma estimateTokens_twelfths text :
  estimateTokens text = (8 * cjkCount text + 3 * otherCount text + 11) `div` 12.
Proof.
  unfold estimateTokens.
  by rewrite Qceiling_twelfths, chineseChars_count, otherChars_count.
Qed.

Lemma estimateTokens_counts_le s t :
  cjkCount s ≤ cjkCount t → otherCount s ≤ otherCount t →
  estimateTokens s ≤ estimateTokens t.
Proof.
  intros Hc Ho. rewrite !estimateTokens_twelfths.
  apply Z.div_le_mono; lia.
Qed.

(** ** The limit check, case by case *)

Lemma lessThan_Finite x y : lessThan (Finite x) (Finite y) = true ↔ (x < y)%Q.
Proof.
  unfold lessThan. rewrite Qlt_alt. by destruct (x ?= y)%Q.
Qed.

Lemma tokenLimits_nonzero model n : tokenLimits !! model = Some n → n ≠ 0.
Proof.
  assert (map_Forall (λ _ n, n ≠ 0) tokenLimits) as Hall
    by (apply (bool_decide_unpack _); by vm_compute).
  apply Hall.
Qed.

Lemma limit_own model n :
  tokenLimits !! model = Some n →
  logicalOr (getProperty tokenLimits model) (VNumber (Finite 4096))
  = VNumber (Finite (inject_Z n)).
Proof.
  intros Hn. unfold getProperty, logicalOr. rewrite Hn. simpl.
  pose proof (tokenLimits_nonzero _ _ Hn) as Hnz.
  destruct (Qeq_bool (inject_Z n) 0) eqn:Heq; [|done].
  apply Qeq_bool_eq in Heq. unfold Qeq in Heq. simpl in Heq. lia.
Qed.

Lemma limit_unknown model :
  tokenLimits !! model = None → model ∉ Object_prototype →
  logicalOr (getProperty tokenLimits model) (VNumber (Finite 4096))
  = VNumber (Finite 4096).
Proof.
  intros Hn Hproto. unfold getProperty, logicalOr. rewrite Hn.
  by rewrite decide_False.
Qed.

Lemma limit_inherited model :
  model ∈ Object_prototype →
  logicalOr (getProperty tokenLimits model) (VNumber (Finite 4096)) = VObject.
Proof.
  intros Hproto. unfold getProperty, logicalOr.
  assert (Forall (λ k, tokenLimits !! k = None) Object_prototype) as Hall
    by (apply (bool_decide_unpack _); by vm_compute).
  rewrite Forall_forall in Hall. rewrite (Hall _ Hproto).
  by rewrite decide_True.
Qed.

(** A model name that is a property of [Object.prototype] makes the
    limit [NaN]: the check fails whatever the messages. *)
Lemma checkTokenLimit_inherited messages model :
  model ∈ Object_prototype → checkTokenLimit messages model = false.
Proof. intros Hproto. unfold checkTokenLimit. by rewrite limit_inherited. Qed.

Lemma checkTokenLimit_ceiling messages model :
  model ∉ Object_prototype →
  checkTokenLimit messages model = true
  ↔ (inject_Z (estimateTokens (concat (content <$> messages)))
     < 0.8 * inject_Z (modelCeiling model))%Q.
Proof.
  intros Hproto. unfold checkTokenLimit, modelCeiling.
  destruct (tokenLimits !! model) as [n|] eqn:Hn.
  - rewrite (limit_own _ _ Hn). cbn [toNumber times]. rewrite lessThan_Finite.
    by rewrite (Qmult_comm 0.8).
  - rewrite (limit_unknown _ Hn Hproto). cbn [toNumber times]. rewrite lessThan_Finite.
    by rewrite (Qmult_comm 0.8).
Qed.

(** ** The turn condition *)

Lemma whileTurn_skip opt model :
  checkTokenLimit opt model = true ∨ (length opt ≤ 1)%nat →
  whileTurn opt model = Return opt.
Proof.
  intros Hskip. unfold whileTurn.
  destruct (negb (checkTokenLimit opt model) && bool_decide (1 < length opt)%nat)
    eqn:Hcond; [|done].
  apply andb_prop in Hcond as [Hover Hlong].
  apply negb_true_iff in Hover. apply bool_decide_eq_true in Hlong.
  destruct Hskip; [congruence | lia].
Qed.

Lemma whileTurn_run opt model :
  checkTokenLimit opt model = false → (1 < length opt)%nat →
  whileTurn opt model =
    if bool_decide (length (deleteEarliestNonSystem opt) ≤ 2)%nat
    then Return (deleteEarliestNonSystem opt)
    else Continue (deleteEarliestNonSystem opt).
Proof.
  intros Hover Hlong. unfold whileTurn.
  by rewrite Hover, (bool_decide_eq_true_2 _ Hlong).
Qed.

(** * The properties of the trimmer *)

(** C4. A conversation that passes the limit check is returned as it
    is: the loop is not entered, and the result is the list of the same
    messages in the same order. *)
Theorem optimizeMessages_within_limit messages model fuel :
  checkTokenLimit messages model = true →
  optimizeMessages (S fuel) messages model = Some messages.
Proof.
  intros Hfits. unfold optimizeMessages. cbn [optimizeLoop].
  by rewrite whileTurn_skip by auto.
Qed.

Lemma optimizeMessages_within_limit_witness :
  checkTokenLimit short_conversation "gpt-4" = true
  ∧ optimizeMessages 1 short_conversation "gpt-4" = Some short_conversation.
Proof.
  split; [by vm_compute|].
  apply (optimizeMessages_within_limit short_conversation "gpt-4" 0).
  by vm_compute.
Defined.

(** C6. Trimming twice is trimming once: with any number of turns
    allowed, calling [optimizeMessages] on what a first call returns
    gives the same list again, and gives nothing when the first call
    has not returned within these turns. *)
Theorem optimizeMessages_idempotent fuel c m :
  optimizeMessages fuel c m ≫= (λ r, optimizeMessages fuel r m)
  = optimizeMessages fuel c m.
Proof.
  unfold optimizeMessages.
  destruct (optimizeLoop fuel c m) as [r|] eqn:Hr; [|done]. simpl.
  pose proof (optimizeLoop_Return_again _ _ _ _ Hr) as Hagain.
  destruct fuel as [|fuel]; [done|]. cbn [optimizeLoop]. by rewrite Hagain.
Qed.

(** C7. No turn of the loop deletes a system message: the system
    messages of the working copy are those of the input, at every turn
    and in the returned list, however far over the limit the
    conversation is.  An input of two messages or more never goes
    below two messages, and a turn that leaves two messages or fewer
    returns: the loop only goes on with more than two. *)
Theorem optimizeMessages_keeps_system messages model :
  (∀ k, filter isSystem (workingCopy k messages model)
        = filter isSystem messages
      ∧ ((2 ≤ length messages)%nat →
         (2 ≤ length (workingCopy k messages model))%nat))
  ∧ (∀ fuel r, optimizeMessages fuel messages model = Some r →
       filter isSystem r = filter isSystem messages
       ∧ ((2 ≤ length messages)%nat → (2 ≤ length r)%nat))
  ∧ (∀ opt', whileTurn messages model = Continue opt' →
       (2 < length opt')%nat).
Proof.
  split; [|split].
  - intros k. destruct (workingCopy_trimmed k messages model). auto.
  - intros fuel r Hr. destruct (optimizeLoop_trimmed _ _ _ _ Hr). auto.
  - intros opt' Hturn. pose proof (whileTurn_trimmed messages model) as H.
    rewrite Hturn in H. apply H.
Qed.

Lemma optimizeMessages_keeps_system_witness :
  optimizeMessages 3 long_conversation "gpt-3.5-turbo" = Some two_messages
  ∧ filter isSystem two_messages = filter isSystem long_conversation
  ∧ (2 ≤ length two_messages)%nat.
Proof.
  assert (optimizeMessages 3 long_conversation "gpt-3.5-turbo"
          = Some two_messages) as Hrun by (by vm_compute).
  destruct (optimizeMessages_keeps_system long_conversation "gpt-3.5-turbo")
    as (_ & Hret & _).
  destruct (Hret 3%nat two_messages Hrun) as [Hsys Htwo].
  split; [exact Hrun|]. split; [exact Hsys|]. apply Htwo. simpl. lia.
Defined.

(** C10. The trimmer only deletes: at every turn, and in the returned
    list, the working copy is a subsequence of the input (its messages
    are messages of the input, unchanged and in the order of the
    input), and its first message is the first message of the input,
    whatever its role.  An input of one message or none is returned as
    it is, over the limit or not. *)
Theorem optimizeMessages_only_deletes messages model :
  (∀ k, workingCopy k messages model `sublist_of` messages
      ∧ head (workingCopy k messages model) = head messages)
  ∧ (∀ fuel r, optimizeMessages fuel messages model = Some r →
       r `sublist_of` messages ∧ head r = head messages)
  ∧ ((length messages ≤ 1)%nat →
     ∀ fuel, optimizeMessages (S fuel) messages model = Some messages).
Proof.
  split; [|split].
  - intros k. destruct (workingCopy_trimmed k messages model). auto.
  - intros fuel r Hr. destruct (optimizeLoop_trimmed _ _ _ _ Hr). auto.
  - intros Hlen fuel. unfold optimizeMessages. cbn [optimizeLoop].
    by rewrite whileTurn_skip by auto.
Qed.

Lemma optimizeMessages_only_deletes_witness :
  optimizeMessages 1 [msg user (filler 13200)] "gpt-3.5-turbo"
  = Some [msg user (filler 13200)]
  ∧ two_messages `sublist_of` long_conversation.
Proof.
  destruct (optimizeMessages_only_deletes long_conversation "gpt-3.5-turbo")
    as (_ & Hret & _).
  destruct (optimizeMessages_only_deletes [msg user (filler 13200)]
              "gpt-3.5-turbo") as (_ & _ & Hone).
  split.
  - apply Hone. simpl. lia.
  - apply (Hret 3%nat). by vm_compute.
Defined.

(** C2, as the spec words it, does not hold: with a system prompt and
    one long message the loop takes a turn, the first message at index
    1 or more that is not a system message is the last one, and the
    turn deletes nothing. *)
Lemma deleteEarliestNonSystem_spares_last :
  ¬ (∀ opt model,
       checkTokenLimit opt model = false → (1 < length opt)%nat →
       ∃ i, firstNonSystemAfterHead opt = Some i
            ∧ deleteEarliestNonSystem opt = delete i opt).
Proof.
  intros Hclaim.
  destruct (Hclaim two_messages "gpt-3.5-turbo") as (i & Hi & Hdel).
  - by vm_compute.
  - simpl. lia.
  - vm_compute in Hi. injection Hi as <-.
    apply (f_equal length) in Hdel. vm_compute in Hdel. discriminate.
Qed.

(** C2, amended. A turn of the loop deletes at most one message: the
    first message that is not a system message among those strictly
    between the first and the last one (indices 1 to length - 2), and
    no message at all when there is none.  The new working copy is the
    result of this deletion. *)
Theorem deleteEarliestNonSystem_inner opt :
  (∀ j m, (1 ≤ j)%nat → (S j < length opt)%nat →
     opt !! j = Some m → ¬ isSystem m →
     (∀ k m', (1 ≤ k < j)%nat → opt !! k = Some m' → isSystem m') →
     deleteEarliestNonSystem opt = delete j opt)
  ∧ ((∀ k m', (1 ≤ k)%nat → (S k < length opt)%nat →
        opt !! k = Some m' → isSystem m') →
     deleteEarliestNonSystem opt = opt)
  ∧ (∀ model, checkTokenLimit opt model = false → (1 < length opt)%nat →
       whileTurn opt model =
         if bool_decide (length (deleteEarliestNonSystem opt) ≤ 2)%nat
         then Return (deleteEarliestNonSystem opt)
         else Continue (deleteEarliestNonSystem opt)).
Proof.
  split; [|split].
  - intros j m Hj Hlt Hm Hnot Hbefore.
    destruct (deleteEarliestNonSystem_spec opt)
      as [j' m' Hj' Hlt' Hm' Hnot' Hbefore'|Hall].
    + destruct (lt_eq_lt_dec j j') as [[Hlt1| ->]|Hlt2]; [|done|].
      * destruct Hnot. apply (Hbefore' j); auto; lia.
      * destruct Hnot'. apply (Hbefore j'); auto; lia.
    + destruct Hnot. by apply (Hall j).
  - intros Hall.
    destruct (deleteEarliestNonSystem_spec opt)
      as [j' m' Hj' Hlt' Hm' Hnot' _|_]; [|done].
    destruct Hnot'. by apply (Hall j').
  - intros model. apply whileTurn_run.
Qed.

Lemma deleteEarliestNonSystem_inner_witness :
  deleteEarliestNonSystem long_conversation = delete 1%nat long_conversation.
Proof.
  destruct (deleteEarliestNonSystem_inner long_conversation) as (Hdel & _ & _).
  apply (Hdel 1%nat (msg user (units "Hello"))).
  - lia.
  - simpl. lia.
  - reflexivity.
  - unfold isSystem. simpl. discriminate.
  - intros k m' Hk. lia.
Defined.

(** C3. With a system message inside the history the loop does not
    end: the first turn deletes the assistant message at index 1; from
    then on the only message between the first and the last one is the
    system message, the scan deletes nothing, three messages remain and
    the conversation is still over the limit. *)
Theorem optimizeMessages_stuck fuel :
  optimizeMessages fuel stuck_conversation "gpt-3.5-turbo" = None.
Proof.
  unfold optimizeMessages. destruct fuel as [|fuel]; [done|].
  cbn [optimizeLoop].
  assert (whileTurn stuck_conversation "gpt-3.5-turbo"
          = Continue (delete 1%nat stuck_conversation)) as -> by (by vm_compute).
  apply optimizeLoop_stuck. by vm_compute.
Qed.

(** C1. A conversation over the limit whose only system message sits
    between two user messages: no number of turns makes the call
    return. *)
Theorem optimizeMessages_inner_system_never_returns :
  checkTokenLimit inner_system_conversation "gpt-3.5-turbo" = false
  ∧ ∀ fuel,
      optimizeMessages fuel inner_system_conversation "gpt-3.5-turbo" = None.
Proof.
  split; [by vm_compute|]. intros fuel.
  apply optimizeLoop_stuck. by vm_compute.
Qed.

(** What does hold of a conversation over the limit: any list the call
    returns is no longer than the input, has its system messages and
    its last message; and the call returns, within [length - 1] turns,
    when no system message lies strictly between the first and the last
    message. *)
Lemma optimizeMessages_over_limit_result messages model fuel r :
  optimizeMessages fuel messages model = Some r →
  (length r ≤ length messages)%nat
  ∧ filter isSystem r = filter isSystem messages
  ∧ last r = last messages.
Proof.
  intros Hr. pose proof (optimizeLoop_trimmed _ _ _ _ Hr) as Htr.
  split; [by apply trimmed_length|]. by destruct Htr.
Qed.

Lemma optimizeMessages_returns messages model :
  noInnerSystem messages →
  ∃ r, optimizeMessages (Nat.max 1 (length messages - 1)) messages model
       = Some r.
Proof.
  intros Hno. unfold optimizeMessages.
  destruct (optimizeLoop_returns (length messages - 2) messages model
              ltac:(lia) Hno) as [r Hr].
  exists r. eapply optimizeLoop_more_fuel; [|exact Hr]. lia.
Qed.

(** * The properties of the estimate and of the limit check *)

(** C5. The limit check does not fall back to the default ceiling for
    every model name that the limit table does not have.  The name
    [constructor] is not in the table, so that its ceiling is the
    default, 4096, and the estimate of an empty conversation is below
    80% of it; yet the check fails.  Reading the name from the object
    literal gives the function inherited from [Object.prototype], which
    is truthy, so that the default of [|| 4096] is not taken; the limit
    times [0.8] is [NaN], and no number is less than [NaN].  It is so
    for every inherited name, whatever the messages. *)
Theorem checkTokenLimit_inherited_name_fails :
  (tokenLimits !! "constructor"%string = None
   ∧ modelCeiling "constructor" = 4096
   ∧ (inject_Z (estimateTokens (concat (content <$> [])))
      < 0.8 * inject_Z (modelCeiling "constructor"))%Q
   ∧ checkTokenLimit [] "constructor" = false)
  ∧ ∀ messages model,
      model ∈ Object_prototype →
      tokenLimits !! model = None ∧ checkTokenLimit messages model = false.
Proof.
  split; [by vm_compute|]. intros messages model Hproto.
  split; [|by apply checkTokenLimit_inherited].
  assert (Forall (λ k, tokenLimits !! k = None) Object_prototype) as Hall
    by (apply (bool_decide_unpack _); by vm_compute).
  rewrite Forall_forall in Hall. by apply Hall.
Qed.

(** So the equivalence of the check and of the comparison with 80% of
    the ceiling does not hold for every model name. *)
Lemma checkTokenLimit_constructor :
  ¬ (∀ messages model,
       checkTokenLimit messages model = true
       ↔ (inject_Z (estimateTokens (concat (content <$> messages)))
          < 0.8 * inject_Z (modelCeiling model))%Q).
Proof.
  intros Hclaim.
  destruct (Hclaim [] "constructor"%string) as [_ Hfits].
  assert (checkTokenLimit [] "constructor" = true) as Hcheck
    by (apply Hfits; by vm_compute).
  by vm_compute in Hcheck.
Qed.

(** What does hold of the limit check.  For a model name that is not
    the name of a property inherited from [Object.prototype], the check
    passes exactly when the estimate of the concatenated contents is
    strictly less than 80% of the model's ceiling, which is the entry
    of the limit table and 4096 for a name the table does not have. *)
Theorem checkTokenLimit_eighty_percent messages model :
  model ∉ Object_prototype →
  (checkTokenLimit messages model = true
   ↔ (inject_Z (estimateTokens (concat (content <$> messages)))
      < 0.8 * inject_Z (modelCeiling model))%Q)
  ∧ (tokenLimits !! model = None → modelCeiling model = 4096)
  ∧ (∀ n, tokenLimits !! model = Some n → modelCeiling model = n).
Proof.
  intros Hproto. split; [|split].
  - by apply checkTokenLimit_ceiling.
  - unfold modelCeiling. by intros ->.
  - unfold modelCeiling. by intros n ->.
Qed.

Lemma checkTokenLimit_eighty_percent_witness :
  ("my-own-model"%string ∉ Object_prototype)
  ∧ modelCeiling "my-own-model" = 4096
  ∧ checkTokenLimit [msg user (filler 13104)] "my-own-model" = true
  ∧ checkTokenLimit [msg user (filler 13105)] "my-own-model" = false.
Proof.
  assert ("my-own-model"%string ∉ Object_prototype) as Hproto
    by (apply (bool_decide_unpack _); by vm_compute).
  destruct (checkTokenLimit_eighty_percent [msg user (filler 13104)] _ Hproto)
    as (Hfits & Hdefault & _).
  destruct (checkTokenLimit_eighty_percent [msg user (filler 13105)] _ Hproto)
    as (Hover & _ & _).
  split; [exact Hproto|]. split; [apply Hdefault; by vm_compute|]. split.
  - apply Hfits. by vm_compute.
  - apply not_true_is_false. intros Hcheck. apply Hover in Hcheck.
    by vm_compute in Hcheck.
Defined.

(** C8. The estimate is [ceil(cjk / 1.5 + other / 4)], where [cjk]
    counts the code units of the text between U+4E00 and U+9FFF and
    [other] counts the remaining ones: it is the least integer that is
    not below [cjk / 1.5 + other / 4], that is, not below
    [(8 cjk + 3 other) / 12].  It is 0 for the empty text, and it is
    defined for every text, as a natural number. *)
Theorem estimateTokens_formula text :
  estimateTokens text
  = Qceiling (inject_Z (cjkCount text) / 1.5 + inject_Z (otherCount text) / 4)%Q
  ∧ (8 * cjkCount text + 3 * otherCount text ≤ 12 * estimateTokens text
     < 8 * cjkCount text + 3 * otherCount text + 12)
  ∧ estimateTokens [] = 0
  ∧ 0 ≤ estimateTokens text.
Proof.
  pose proof (cjkCount_nonneg text). pose proof (otherCount_nonneg text).
  split; [|split; [|split]].
  - unfold estimateTokens. by rewrite chineseChars_count, otherChars_count.
  - rewrite estimateTokens_twelfths.
    set (n := 8 * cjkCount text + 3 * otherCount text).
    pose proof (Z.div_mod (n + 11) 12 ltac:(lia)).
    pose proof (Z.mod_pos_bound (n + 11) 12 ltac:(lia)). lia.
  - reflexivity.
  - rewrite estimateTokens_twelfths. apply Z.div_pos; lia.
Qed.

(** C9. The estimate does not decrease when a text is extended, nor
    from a text to a longer one of the same script composition. *)
Theorem estimateTokens_monotone s t :
  s `prefix_of` t ∨ (sameComposition s t ∧ (length s ≤ length t)%nat) →
  estimateTokens s ≤ estimateTokens t.
Proof.
  intros [[ext ->]|[Hsame Hlen]]; apply estimateTokens_counts_le.
  - rewrite cjkCount_app. pose proof (cjkCount_nonneg ext). lia.
  - rewrite otherCount_app. pose proof (otherCount_nonneg ext). lia.
  - unfold sameComposition in Hsame.
    pose proof (length_cjk_other s). pose proof (length_cjk_other t).
    pose proof (cjkCount_nonneg s). pose proof (cjkCount_nonneg t).
    pose proof (otherCount_nonneg s). pose proof (otherCount_nonneg t). nia.
  - unfold sameComposition in Hsame.
    pose proof (length_cjk_other s). pose proof (length_cjk_other t).
    pose proof (cjkCount_nonneg s). pose proof (cjkCount_nonneg t).
    pose proof (otherCount_nonneg s). pose proof (otherCount_nonneg t). nia.
Qed.

Lemma estimateTokens_monotone_witness :
  estimateTokens [0x4e2d; 0x6587]%N ≤ estimateTokens [0x4e2d; 0x6587; 0x61]%N
  ∧ estimateTokens [0x4e2d; 0x61]%N
    ≤ estimateTokens [0x61; 0x6587; 0x62; 0x5b57]%N.
Proof.
  split.
  - apply estimateTokens_monotone. left. by exists [0x61%N].
  - apply estimateTokens_monotone. right. split; [by vm_compute | simpl; lia].
Defined.

(** * The rational model against binary64 *)

(** An integer is below a rational when it is below its ceiling. *)
Lemma Qlt_Z_ceiling e q : (inject_Z e < q)%Q ↔ e < Qceiling q.
Proof.
  split; intros Hlt.
  - rewrite Zlt_Qlt. eapply Qlt_le_trans; [exact Hlt | apply Qle_ceiling].
  - eapply Qle_lt_trans; [|apply Qceiling_lt].
    rewrite <- Zle_Qle. lia.
Qed.

(** The float [limit * 0.8] separates the integers as 80% of the limit
    does, for every ceiling the check can use. *)
Lemma limit64_threshold model :
  ∃ q, limit64 (modelCeiling model) = Some q
       ∧ ∀ e, (inject_Z e < q)%Q
              ↔ (inject_Z e < 0.8 * inject_Z (modelCeiling model))%Q.
Proof.
  assert (∀ limit, limit = 4096 ∨ map_Exists (λ _ n, n = limit) tokenLimits →
          Qceiling <$> limit64 limit = Some (Qceiling (0.8 * inject_Z limit)))
    as Hceil.
  { assert (map_Forall (λ _ n, Qceiling <$> limit64 n
                               = Some (Qceiling (0.8 * inject_Z n))) tokenLimits)
      as Hall by (apply (bool_decide_unpack _); by vm_compute).
    intros limit [->|(k & n & Hk & ->)]; [by vm_compute | by eapply Hall]. }
  specialize (Hceil (modelCeiling model)).
  destruct (limit64 (modelCeiling model)) as [q|] eqn:Hq.
  - exists q. split; [done|]. intros e. rewrite !Qlt_Z_ceiling.
    assert (Qceiling q = Qceiling (0.8 * inject_Z (modelCeiling model)))
      as ->; [|done].
    assert (Some (Qceiling q)
            = Some (Qceiling (0.8 * inject_Z (modelCeiling model)))) as [= ->];
      [|done].
    apply Hceil. unfold modelCeiling.
    destruct (tokenLimits !! model) as [n|] eqn:Hn; simpl; [|by left].
    right. by exists model, n.
  - exfalso. enough (@None Z = Some (Qceiling (0.8 * inject_Z (modelCeiling model))))
      by done.
    apply Hceil. unfold modelCeiling.
    destruct (tokenLimits !! model) as [n|] eqn:Hn; simpl; [|by left].
    right. by exists model, n.
Qed.

(** The float estimate is the rational one for all counts up to 128,
    and at the counts next to each threshold of the limit check. *)
Lemma estimate64_small c o :
  0 ≤ c ≤ 128 → 0 ≤ o ≤ 128 →
  estimate64 c o
  = Some (Qceiling (inject_Z c / 1.5 + inject_Z o / 4)%Q).
Proof.
  intros Hc Ho. rewrite Qceiling_twelfths.
  assert (Forall (λ c, Forall (λ o,
            estimate64 c o = Some ((8 * c + 3 * o + 11) `div` 12))
            (seqZ 0 129)) (seqZ 0 129)) as Hall
    by (apply (bool_decide_unpack _); by vm_compute).
  rewrite Forall_forall in Hall.
  specialize (Hall c ltac:(apply elem_of_seqZ; lia)).
  rewrite Forall_forall in Hall. apply Hall, elem_of_seqZ. lia.
Qed.

Lemma estimate64_thresholds :
  Forall (λ limit,
    Forall (λ co : Z * Z,
      estimate64 co.1 co.2
      = Some (Qceiling (inject_Z co.1 / 1.5 + inject_Z co.2 / 4)%Q))
      [ (0, 16 * limit `div` 5 - 1); (0, 16 * limit `div` 5);
        (0, 16 * limit `div` 5 + 1); (6 * limit `div` 5 - 1, 0);
        (6 * limit `div` 5, 0); (6 * limit `div` 5 + 1, 0);
        (3 * limit `div` 5, 8 * limit `div` 5);
        (3 * limit `div` 5 + 1, 8 * limit `div` 5 + 1) ])
    [4096; 8192; 16384; 32768; 128000].
Proof. apply (bool_decide_unpack _). by vm_compute. Qed.

(** And at all pairs of counts among the powers of two up to [2^30],
    their predecessors and their successors. *)
Lemma estimate64_powers :
  let counts := k ← seqZ 1 30; [2 ^ k - 1; 2 ^ k; 2 ^ k + 1] in
  Forall (λ c, Forall (λ o,
    estimate64 c o = Some (Qceiling (inject_Z c / 1.5 + inject_Z o / 4)%Q))
    counts) counts.
Proof. intros counts. apply (bool_decide_unpack _). by vm_compute. Qed.

(** * Further properties of the estimate and of the limit check *)

(** The counts of a conversation made of some messages of another. *)
Lemma concat_counts_submseteq (l1 l2 : list OpenAIMessage) :
  l1 ⊆+ l2 →
  cjkCount (concat (content <$> l1)) ≤ cjkCount (concat (content <$> l2))
  ∧ otherCount (concat (content <$> l1)) ≤ otherCount (concat (content <$> l2)).
Proof.
  induction 1 as [|m l1 l2 _ IH|m m' l|m l1 l2 _ IH|l1 l2 l3 _ IH1 _ IH2];
    cbn [fmap list_fmap concat]; rewrite ?cjkCount_app, ?otherCount_app;
    try pose proof (cjkCount_nonneg (content m));
    try pose proof (otherCount_nonneg (content m)); lia.
Qed.

Lemma estimate_div_bounds n :
  0 ≤ n → n ≤ 12 * ((n + 11) `div` 12) < n + 12.
Proof.
  intros Hn. pose proof (Z.div_mod (n + 11) 12 ltac:(lia)).
  pose proof (Z.mod_pos_bound (n + 11) 12 ltac:(lia)). lia.
Qed.

(** The estimate is the weighted count rounded up: twelve times the
    estimate is the first multiple of twelve at or above
    [8 * cjk + 3 * other]. *)
Lemma estimateTokens_ceiling_bounds text :
  8 * cjkCount text + 3 * otherCount text ≤ 12 * estimateTokens text
  < 8 * cjkCount text + 3 * otherCount text + 12.
Proof.
  rewrite estimateTokens_twelfths. apply estimate_div_bounds.
  pose proof (cjkCount_nonneg text). pose proof (otherCount_nonneg text). lia.
Qed.

(** X1. The estimate of a text lies between a quarter and two thirds
    of its number of code units, rounded up: twelve times the estimate
    is at least three times the length and at most eight times the
    length plus eleven.  In particular a text that is not empty has an
    estimate of one token or more, and the estimate never exceeds the
    length. *)
Theorem estimateTokens_length_bounds text :
  3 * Z.of_nat (length text) ≤ 12 * estimateTokens text
  ∧ 12 * estimateTokens text ≤ 8 * Z.of_nat (length text) + 11.
Proof.
  pose proof (estimateTokens_ceiling_bounds text).
  pose proof (length_cjk_other text).
  pose proof (cjkCount_nonneg text). pose proof (otherCount_nonneg text). lia.
Qed.

(** X2. Estimating a text in two parts costs at most one token more
    than estimating it whole, and never less: the estimate of [s ++ t]
    is at most the sum of the estimates of [s] and [t], and at least
    that sum minus one. *)
Theorem estimateTokens_concat s t :
  estimateTokens (s ++ t) ≤ estimateTokens s + estimateTokens t
  ∧ estimateTokens s + estimateTokens t ≤ estimateTokens (s ++ t) + 1.
Proof.
  pose proof (estimateTokens_ceiling_bounds s).
  pose proof (estimateTokens_ceiling_bounds t).
  pose proof (estimateTokens_ceiling_bounds (s ++ t)) as Hst.
  rewrite cjkCount_app, otherCount_app in Hst. lia.
Qed.

(** X3. The limit check only goes by the amount of text: when a
    conversation passes the check for a model, so does every
    conversation made of some of its messages, in any order. *)
Theorem checkTokenLimit_fewer_messages l1 l2 model :
  l1 ⊆+ l2 → checkTokenLimit l2 model = true → checkTokenLimit l1 model = true.
Proof.
  intros Hsub Hfits.
  destruct (decide (model ∈ Object_prototype)) as [Hin|Hout].
  - by rewrite checkTokenLimit_inherited in Hfits.
  - apply checkTokenLimit_ceiling in Hfits; [|done].
    apply checkTokenLimit_ceiling; [done|].
    eapply Qle_lt_trans; [|exact Hfits]. rewrite <- Zle_Qle.
    destruct (concat_counts_submseteq _ _ Hsub).
    by apply estimateTokens_counts_le.
Qed.

(** Two messages of the short exchange, in the other order. *)
Lemma checkTokenLimit_fewer_messages_witness :
  checkTokenLimit [msg user (units "What is a token?");
                   msg system (units "You are a helpful assistant.")]
    "gpt-4" = true.
Proof.
  apply (checkTokenLimit_fewer_messages _ short_conversation).
  - apply (bool_decide_unpack _). by vm_compute.
  - by vm_compute.
Defined.

(** * Further properties of the trimmer *)

(** When the second message is not a system message and is not the
    last one, it is the message a turn deletes. *)
Lemma deleteEarliestNonSystem_second first m rest :
  ¬ isSystem m → rest ≠ [] →
  deleteEarliestNonSystem (first :: m :: rest) = first :: rest.
Proof.
  intros Hm Hrest.
  destruct (deleteEarliestNonSystem_spec (first :: m :: rest))
    as [j mj Hj Hlt Hmj Hnot Hbefore|Hall].
  - destruct j as [|[|j]]; [lia|done|].
    destruct Hm. apply (Hbefore 1%nat); [lia|done].
  - destruct Hm. apply (Hall 1%nat); [lia| |done].
    destruct rest; [done|simpl; lia].
Qed.

(** X4. A conversation with no system message between its first and
    its last message: the call returns within as many turns as there
    are messages in between, plus one, and what it returns is the input
    without its [k] oldest messages in between, the first and the last
    message kept.  [k] is the least number of deletions after which the
    check passes: the check fails on the input without its [j] oldest,
    for every [j < k], and passes on the result unless every message in
    between had to go. *)
Theorem optimizeMessages_drops_oldest first middle lst model :
  Forall (λ m, ¬ isSystem m) middle →
  ∃ k, (k ≤ length middle)%nat
    ∧ optimizeMessages (S (length middle)) (first :: middle ++ [lst]) model
      = Some (first :: drop k middle ++ [lst])
    ∧ (∀ j, (j < k)%nat →
         checkTokenLimit (first :: drop j middle ++ [lst]) model = false)
    ∧ ((k < length middle)%nat →
       checkTokenLimit (first :: drop k middle ++ [lst]) model = true).
Proof.
  unfold optimizeMessages.
  induction middle as [|m rest IH]; intros Hmid.
  - exists 0%nat. split; [done|]. split; [|split; [intros; lia | simpl; lia]].
    cbn [optimizeLoop]. simpl.
    destruct (checkTokenLimit [first; lst] model) eqn:Hcheck.
    + by rewrite whileTurn_skip by auto.
    + rewrite whileTurn_run by (simpl; auto with lia).
      by rewrite deleteEarliestNonSystem_short by (simpl; lia).
  - apply Forall_cons in Hmid as [Hm Hrest].
    destruct (checkTokenLimit (first :: (m :: rest) ++ [lst]) model) eqn:Hcheck.
    + exists 0%nat. split; [lia|]. split; [|split; [intros; lia | done]].
      cbn [optimizeLoop]. by rewrite whileTurn_skip by auto.
    + destruct (IH Hrest) as (k & Hk & Hrun & Hbefore & Hfits).
      exists (S k). split; [simpl; lia|]. split; [|split].
      * cbn [optimizeLoop length].
        rewrite whileTurn_run by (done || (simpl; lia)).
        change (first :: (m :: rest) ++ [lst])
          with (first :: m :: (rest ++ [lst])).
        rewrite deleteEarliestNonSystem_second by (done || by destruct rest).
        destruct rest as [|m' rest'].
        -- apply Nat.le_0_r in Hk as ->. done.
        -- rewrite bool_decide_eq_false_2
             by (simpl; rewrite length_app; simpl; lia).
           exact Hrun.
      * intros [|j] Hj; [done|]. apply Hbefore. lia.
      * intros Hlt. apply Hfits. simpl in Hlt. lia.
Qed.

(** The long exchange: both messages in between go. *)
Lemma optimizeMessages_drops_oldest_witness :
  ∃ k, (k ≤ 2)%nat
    ∧ optimizeMessages 3 long_conversation "gpt-3.5-turbo"
      = Some (msg system (units "You are a helpful assistant.")
              :: drop k [msg user (units "Hello");
                         msg assistant (units "Hi, how can I help?")]
              ++ [msg user (filler 13200)]).
Proof.
  destruct (optimizeMessages_drops_oldest
              (msg system (units "You are a helpful assistant."))
              [msg user (units "Hello");
               msg assistant (units "Hi, how can I help?")]
              (msg user (filler 13200)) "gpt-3.5-turbo")
    as (k & Hk & Hrun & _).
  - repeat constructor; by vm_compute.
  - exists k. split; [exact Hk | exact Hrun].
Defined.

(** A list of two elements is its first and its last one. *)
Lemma two_of_head_last {A} (l : list A) a b :
  (length l ≤ 2)%nat → (2 ≤ length l)%nat →
  head l = Some a → last l = Some b → l = [a; b].
Proof.
  destruct l as [|x [|y [|z l]]]; simpl; try lia.
  by intros _ _ [= ->] [= ->].
Qed.

(** A returned list passes the check or has two messages at most. *)
Lemma optimizeLoop_fits_or_two fuel opt model r :
  optimizeLoop fuel opt model = Some r →
  checkTokenLimit r model = true ∨ (length r ≤ 2)%nat.
Proof.
  revert opt. induction fuel as [|fuel IH]; intros opt; cbn [optimizeLoop];
    [done|].
  destruct (whileTurn opt model) as [r'|opt'] eqn:Hturn; [|apply IH].
  intros [= <-]. unfold whileTurn in Hturn.
  destruct (checkTokenLimit opt model) eqn:Hcheck; simpl in Hturn.
  - injection Hturn as <-. by left.
  - case_bool_decide as Hlen.
    + destruct (bool_decide (length (deleteEarliestNonSystem opt) ≤ 2)%nat)
        eqn:Hle; [|done].
      injection Hturn as <-. right. by apply bool_decide_eq_true in Hle.
    + injection Hturn as <-. right. lia.
Qed.

(** X5. What a returned list can be: a list that passes the limit
    check; or the input itself, when it has one message or none; or
    exactly the first and the last message of the input. *)
Theorem optimizeMessages_result fuel messages model r :
  optimizeMessages fuel messages model = Some r →
  checkTokenLimit r model = true
  ∨ ((length messages ≤ 1)%nat ∧ r = messages)
  ∨ (∃ first lst, head messages = Some first ∧ last messages = Some lst
                  ∧ r = [first; lst]).
Proof.
  unfold optimizeMessages. intros Hr.
  destruct (optimizeLoop_fits_or_two _ _ _ _ Hr) as [Hfits|Hlen]; [by left|].
  right. destruct (decide (length messages ≤ 1)%nat) as [Hshort|Hlong].
  - left. split; [done|].
    destruct fuel as [|fuel]; [done|]. cbn [optimizeLoop] in Hr.
    rewrite whileTurn_skip in Hr by auto. by injection Hr.
  - right. destruct (optimizeLoop_trimmed _ _ _ _ Hr) as [_ _ Hhead Hlast Htwo].
    destruct messages as [|first rest]; [simpl in Hlong; lia|].
    destruct (last (first :: rest)) as [lst|] eqn:Hl;
      [|by apply last_None in Hl].
    exists first, lst. split; [done|]. split; [done|].
    apply two_of_head_last; [done| apply Htwo; lia |done|done].
Qed.

(** The long exchange is cut down to its first and last message. *)
Lemma optimizeMessages_result_witness :
  checkTokenLimit two_messages "gpt-3.5-turbo" = true
  ∨ ((length long_conversation ≤ 1)%nat ∧ two_messages = long_conversation)
  ∨ (∃ first lst, head long_conversation = Some first
                  ∧ last long_conversation = Some lst
                  ∧ two_messages = [first; lst]).
Proof.
  apply (optimizeMessages_result 3 long_conversation). by vm_compute.
Defined.

(** A turn never makes the working copy longer. *)
Lemma workingCopy_length_step k messages model :
  (length (workingCopy (S k) messages model)
   ≤ length (workingCopy k messages model))%nat.
Proof.
  revert messages. induction k as [|k IH]; intros messages.
  - cbn [workingCopy]. pose proof (whileTurn_trimmed messages model) as Htr.
    destruct (whileTurn messages model); [|destruct Htr as [Htr _]];
      by apply trimmed_length.
  - specialize (IH (match whileTurn messages model with
                    | Return r => r | Continue opt' => opt' end)).
    cbn [workingCopy] in *.
    destruct (whileTurn messages model) as [r|opt']; [lia|]. exact IH.
Qed.

(** X6. The last message of the working copy is the last message of
    the input at every turn of the loop, and its length never grows
    from one turn to the next; so a returned list ends with the last
    message of the input and is no longer than the input. *)
Theorem optimizeMessages_keeps_last messages model :
  (∀ k, last (workingCopy k messages model) = last messages
      ∧ (length (workingCopy (S k) messages model)
         ≤ length (workingCopy k messages model) ≤ length messages)%nat)
  ∧ (∀ fuel r, optimizeMessages fuel messages model = Some r →
       last r = last messages ∧ (length r ≤ length messages)%nat).
Proof.
  split.
  - intros k. pose proof (workingCopy_trimmed k messages model) as Htr.
    split; [by destruct Htr|]. split; [apply workingCopy_length_step|].
    by apply trimmed_length.
  - intros fuel r Hr. pose proof (optimizeLoop_trimmed _ _ _ _ Hr) as Htr.
    split; [by destruct Htr | by apply trimmed_length].
Qed.

(** No model has a ceiling below the default of 4096 tokens. *)
Lemma tokenLimits_at_least model : 4096 ≤ modelCeiling model.
Proof.
  unfold modelCeiling.
  assert (map_Forall (λ _ n, 4096 ≤ n) tokenLimits) as Hall
    by (apply (bool_decide_unpack _); by vm_compute).
  destruct (tokenLimits !! model) as [n|] eqn:Hn; [|done].
  by apply (Hall _ _ Hn).
Qed.

(** X7. The message of [buildSystemMessage] has the role [system] and
    an estimate of 98 tokens, which leaves room for a question: the
    conversation made of it and of one message whose estimate is at most
    3178 tokens passes the limit check of every model, listed or not
    (names inherited from [Object.prototype] apart), and
    [optimizeMessages] returns that conversation as it is. *)
Theorem buildSystemMessage_fits q model :
  model ∉ Object_prototype →
  estimateTokens (content q) ≤ 3178 →
  isSystem buildSystemMessage
  ∧ estimateTokens (content buildSystemMessage) = 98
  ∧ checkTokenLimit [buildSystemMessage; q] model = true
  ∧ ∀ fuel, optimizeMessages (S fuel) [buildSystemMessage; q] model
            = Some [buildSystemMessage; q].
Proof.
  intros Hproto Hq. split; [done|].
  assert (estimateTokens (content buildSystemMessage) = 98) as Hsys
    by (by vm_compute).
  split; [exact Hsys|].
  assert (checkTokenLimit [buildSystemMessage; q] model = true) as Hfits.
  { apply checkTokenLimit_ceiling; [done|].
    cbn [fmap list_fmap concat]. rewrite app_nil_r.
    pose proof (estimateTokens_ceiling_bounds (content buildSystemMessage)) as Hs.
    pose proof (estimateTokens_ceiling_bounds (content q)) as Hc.
    pose proof (estimateTokens_ceiling_bounds
                  (content buildSystemMessage ++ content q)) as Hsq.
    rewrite cjkCount_app, otherCount_app in Hsq.
    pose proof (tokenLimits_at_least model) as Hm.
    set (e := estimateTokens (content buildSystemMessage ++ content q)) in *.
    assert (e ≤ 3276) as He by lia.
    apply Qle_lt_trans with (inject_Z 3276); [by rewrite <- Zle_Qle|].
    apply Qlt_le_trans with (0.8 * inject_Z 4096)%Q; [done|].
    apply Qmult_le_l; [done|]. by rewrite <- Zle_Qle. }
  split; [exact Hfits|]. intros fuel. unfold optimizeMessages.
  cbn [optimizeLoop]. by rewrite whileTurn_skip by auto.
Qed.

(** The system message and a short question. *)
Lemma buildSystemMessage_fits_witness :
  estimateTokens (content buildSystemMessage) = 98
  ∧ checkTokenLimit [buildSystemMessage; msg user (units "What is a token?")]
      "gpt-4" = true.
Proof.
  destruct (buildSystemMessage_fits (msg user (units "What is a token?"))
              "gpt-4") as (_ & Hsys & Hfits & _).
  - apply (bool_decide_unpack _). by vm_compute.
  - by vm_compute.
  - split; [exact Hsys | exact Hfits].
Defined.

(** * Error messages (getOpenAIErrorMessage) *)

(** [includes] is the search for an occurrence. *)
Lemma startsWith_prefix s needle :
  startsWith s needle = true ↔ needle `prefix_of` s.
Proof.
  revert s. induction needle as [|n needle IH]; intros [|u s]; simpl.
  - done.
  - split; [intros _; apply prefix_nil | done].
  - split; [done|]. by intros ?%prefix_nil_not.
  - rewrite andb_true_iff, bool_decide_eq_true, IH. split.
    + intros [-> Hp]. by apply prefix_cons.
    + intros Hp. split; [by apply prefix_cons_inv_1 in Hp|
                         by apply prefix_cons_inv_2 in Hp].
Qed.

Lemma includes_infix s needle :
  includes s needle = true ↔ ∃ before after, s = before ++ needle ++ after.
Proof.
  induction s as [|u s IH]; cbn [includes];
    rewrite orb_true_iff, startsWith_prefix.
  - split.
    + intros [[after ->]|]; [|done]. by exists [], after.
    + intros (before & after & Heq). left.
      destruct before; [|done]. simpl in Heq. by exists after.
  - rewrite IH. split.
    + intros [[after ->]|(before & after & ->)].
      * by exists [], after.
      * by exists (u :: before), after.
    + intros ([|u' before] & after & Heq); simpl in Heq.
      * left. by exists after.
      * right. injection Heq as -> ->. by exists before, after.
Qed.

(** X8. For the statuses 401, 403, 500, 502, 503 and 504 the text
    returned does not depend on the body of the error response:
    nothing the server sent reaches the user. *)
Theorem getOpenAIErrorMessage_hides_body status errorData errorData' :
  status ∈ [401; 403; 500; 502; 503; 504] →
  getOpenAIErrorMessage status errorData
  = getOpenAIErrorMessage status errorData'.
Proof.
  rewrite !elem_of_cons, elem_of_nil.
  intros [->|[->|[->|[->|[->|[->|[]]]]]]]; vm_compute; reflexivity.
Qed.

(** Status 503, without a body and with one. *)
Lemma getOpenAIErrorMessage_hides_body_witness :
  getOpenAIErrorMessage 503 {| error := None |}
  = getOpenAIErrorMessage 503
      {| error := Some {| message := Some (utf16 "upstream exploded");
                          code := None |} |}.
Proof.
  apply getOpenAIErrorMessage_hides_body.
  apply (bool_decide_unpack _). by vm_compute.
Defined.

(** Texts that are not empty. *)
Lemma app_head_nonempty {A} (l r : list A) : l ≠ [] → l ++ r ≠ [].
Proof. by destruct l. Qed.

Lemma utf16_cons_nonempty s : (∃ u r, utf16 s = u :: r) → utf16 s ≠ [].
Proof. by intros (u & r & ->). Qed.

(** X9. [getOpenAIErrorMessage] never returns the empty string,
    whatever the status and the body of the error response. *)
Theorem getOpenAIErrorMessage_nonempty status errorData :
  getOpenAIErrorMessage status errorData ≠ [].
Proof.
  unfold getOpenAIErrorMessage.
  repeat match goal with
         | |- context [bool_decide ?P] => destruct (bool_decide P)
         | |- context [includes ?a ?b] => destruct (includes a b)
         end.
  all: try apply app_head_nonempty.
  all: apply utf16_cons_nonempty; vm_compute; eauto.
Qed.

Ltac different_texts H :=
  exfalso; apply (f_equal (take 8)) in H; vm_compute in H; discriminate H.

Lemma getOpenAIErrorMessage_case status errorData :
  errorCase status (errorMessageOf errorData)
    (getOpenAIErrorMessage status errorData).
Proof.
  unfold getOpenAIErrorMessage. set (m := errorMessageOf errorData).
  case_bool_decide as H400.
  { destruct (includes m (utf16 "maximum context length")) eqn:Hlong;
      [apply case_400_long | apply case_400_other]; assumption. }
  case_bool_decide as H401; [apply case_401; assumption|].
  case_bool_decide as H403; [apply case_403; assumption|].
  case_bool_decide as H429.
  { destruct (includes m (utf16 "Rate limit")) eqn:Hrate;
      [apply case_429_rate; assumption|].
    destruct (includes m (utf16 "quota")) eqn:Hquota;
      [apply case_429_quota | apply case_429_other]; assumption. }
  case_bool_decide as H5xx; [apply case_5xx; assumption|].
  apply case_default. rewrite !elem_of_cons, elem_of_nil in *. tauto.
Qed.

(** X10. The fixed texts of [getOpenAIErrorMessage] tell the cause:
    the text for an invalid key is returned for status 401 and for no
    other; the text for a missing permission for 403 only; the text for
    an unavailable server for 500, 502, 503 and 504 only; the text for
    a conversation that is too long exactly when the status is 400 and
    the error message (or the default text, when there is none)
    contains [maximum context length]; the text for requests that come
    too fast exactly when the status is 429 and the message contains
    [Rate limit].  The comparison of code units is case sensitive. *)
Theorem getOpenAIErrorMessage_cause status errorData :
  (getOpenAIErrorMessage status errorData = utf16 "API 密钥无效或已过期"
   ↔ status = 401)
  ∧ (getOpenAIErrorMessage status errorData
     = utf16 "没有权限访问该模型，请检查您的 OpenAI 账户权限"
     ↔ status = 403)
  ∧ (getOpenAIErrorMessage status errorData
     = utf16 "OpenAI 服务器暂时不可用，请稍后再试"
     ↔ status ∈ [500; 502; 503; 504])
  ∧ (getOpenAIErrorMessage status errorData
     = utf16 "对话内容过长，请缩短消息或清空历史记录"
     ↔ status = 400
       ∧ ∃ before after,
           errorMessageOf errorData
           = before ++ utf16 "maximum context length" ++ after)
  ∧ (getOpenAIErrorMessage status errorData
     = utf16 "请求过于频繁，请稍后再试"
     ↔ status = 429
       ∧ ∃ before after,
           errorMessageOf errorData = before ++ utf16 "Rate limit" ++ after).
Proof.
  pose proof (includes_infix (errorMessageOf errorData)
                (utf16 "maximum context length")) as Hlong.
  pose proof (includes_infix (errorMessageOf errorData)
                (utf16 "Rate limit")) as Hrate.
  rewrite !elem_of_cons, elem_of_nil.
  destruct (getOpenAIErrorMessage_case status errorData);
    try (set (digits := numberToString status) in *; clearbody digits);
    repeat match goal with
           | H : _ ∈ _ |- _ => rewrite !elem_of_cons, elem_of_nil in H
           | H : _ ∉ _ |- _ => rewrite !elem_of_cons, elem_of_nil in H
           end.
  all: repeat apply conj.
  all: try (intros Heq; different_texts Heq).
  all: try match goal with |- _ → ?x = ?x => intros _; exact eq_refl end.
  all: try match goal with
                 | |- ?x = ?x → _ =>
                     intros _; repeat apply conj;
                     first [ assumption | tauto
                           | apply Hlong; assumption
                           | apply Hrate; assumption ]
                 end.
  all: try (intros HP; exfalso; clear Hlong Hrate; lia).
  all: try (intros [Hst HP]; exfalso;
                 first [ clear Hlong Hrate HP; lia
                       | apply Hlong in HP; congruence
                       | apply Hrate in HP; congruence ]).
Qed.

(** * The chat resolver (src/index.ts) *)

(** ** [trim] *)

Lemma trimStart_suffix s : Worker.trimStart s `suffix_of` s.
Proof.
  induction s as [|u s IH]; simpl; [done|].
  case_decide; [by apply suffix_cons_r | done].
Qed.

Lemma trimStart_head s u :
  head (Worker.trimStart s) = Some u → ¬ Worker.isWhiteSpace u.
Proof.
  induction s as [|v s IH]; simpl; [done|].
  case_decide; [done|]. by intros [= <-].
Qed.

Lemma trimStart_nil s : Worker.trimStart s = [] ↔ Forall Worker.isWhiteSpace s.
Proof.
  induction s as [|u s IH]; simpl; [done|].
  case_decide as Hu.
  - rewrite IH. split; [by constructor | by intros [_ ?]%Forall_cons].
  - split; [done | by intros [? _]%Forall_cons].
Qed.

Lemma trimEnd_prefix s : Worker.trimEnd s `prefix_of` s.
Proof.
  unfold Worker.trimEnd.
  destruct (trimStart_suffix (reverse s)) as [k Hk].
  exists (reverse k). apply (inj reverse).
  by rewrite reverse_app, !reverse_involutive.
Qed.

Lemma trimEnd_last s u :
  last (Worker.trimEnd s) = Some u → ¬ Worker.isWhiteSpace u.
Proof.
  unfold Worker.trimEnd. rewrite last_reverse. apply trimStart_head.
Qed.

Lemma trimEnd_nil s : Worker.trimEnd s = [] ↔ Forall Worker.isWhiteSpace s.
Proof.
  unfold Worker.trimEnd.
  rewrite <- (Forall_reverse _ s), <- trimStart_nil. split.
  - intros H. apply (f_equal reverse) in H.
    by rewrite reverse_involutive in H.
  - intros H. by rewrite H.
Qed.

Lemma trim_nil s : Worker.trim s = [] ↔ Forall Worker.isWhiteSpace s.
Proof.
  unfold Worker.trim. rewrite trimEnd_nil, <- (trimStart_nil s). split.
  - intros Hall. destruct (Worker.trimStart s) as [|u t] eqn:Ht; [done|].
    apply Forall_cons in Hall as [Hu _].
    by destruct (trimStart_head s u); [rewrite Ht|].
  - by intros ->.
Qed.

Lemma trim_length s : (length (Worker.trim s) ≤ length s)%nat.
Proof.
  unfold Worker.trim. etrans.
  - apply prefix_length, trimEnd_prefix.
  - apply suffix_length, trimStart_suffix.
Qed.

Lemma trim_head s u : head (Worker.trim s) = Some u → ¬ Worker.isWhiteSpace u.
Proof.
  unfold Worker.trim. intros Hu. apply (trimStart_head s).
  destruct (trimEnd_prefix (Worker.trimStart s)) as [k Hk].
  rewrite Hk. by destruct (Worker.trimEnd _).
Qed.

Lemma trim_last s u : last (Worker.trim s) = Some u → ¬ Worker.isWhiteSpace u.
Proof. apply trimEnd_last. Qed.

Lemma isBlank_spec s : Worker.isBlank s = true ↔ Forall Worker.isWhiteSpace s.
Proof.
  unfold Worker.isBlank.
  rewrite orb_true_iff, !bool_decide_eq_true, length_zero_iff_nil, trim_nil.
  split; [intros [->|]; [constructor | done] | by right].
Qed.

(** ** The request of the chat resolver *)

(** [slice(-10)] keeps the last ten elements, or all of them. *)
Lemma lastTen_suffix {A} (a : list A) : Worker.lastTen a `suffix_of` a.
Proof. apply suffix_drop. Qed.

Lemma lastTen_length {A} (a : list A) :
  length (Worker.lastTen a) = Nat.min 10 (length a).
Proof. unfold Worker.lastTen. rewrite length_drop. lia. Qed.

(** X11. The validation of the [chat] resolver.  A message that is
    empty or made of white space only is refused with the text for an
    empty message, whatever its length; any other message of more than
    4000 code units, counted before trimming, is refused with the text
    for a long message; any other message is accepted, and a request
    body is built. *)
Theorem chatRequest_validation input :
  (Forall Worker.isWhiteSpace (Worker.message input) →
   Worker.chatRequest input = inl (utf16 "消息内容不能为空"))
  ∧ (¬ Forall Worker.isWhiteSpace (Worker.message input) →
     (4000 < length (Worker.message input))%nat →
     Worker.chatRequest input = inl (utf16 "消息长度不能超过4000字符"))
  ∧ (¬ Forall Worker.isWhiteSpace (Worker.message input) →
     (length (Worker.message input) ≤ 4000)%nat →
     ∃ body, Worker.chatRequest input = inr body).
Proof.
  unfold Worker.chatRequest.
  destruct (Worker.isBlank (Worker.message input)) eqn:Hblank.
  - apply isBlank_spec in Hblank. repeat apply conj.
    + intros _. exact eq_refl.
    + intros Hnot. by destruct Hnot.
    + intros Hnot. by destruct Hnot.
  - assert (¬ Forall Worker.isWhiteSpace (Worker.message input)) as Hnot.
    { rewrite <- isBlank_spec. congruence. }
    repeat apply conj.
    + intros Hall. by destruct Hnot.
    + intros _ Hlong. rewrite bool_decide_eq_true_2 by exact Hlong.
      exact eq_refl.
    + intros _ Hshort. rewrite bool_decide_eq_false_2 by lia. by eexists.
Qed.

(** 5000 blanks are an empty message, not a long one; one letter and
    4000 blanks are a long one, though the text is one letter long
    once trimmed. *)
Lemma chatRequest_validation_witness :
  Worker.chatRequest
    {| Worker.message := replicate 5000 0x20%N; Worker.conversation := None;
       Worker.model := None; Worker.temperature := None;
       Worker.maxTokens := None |}
  = inl (utf16 "消息内容不能为空")
  ∧ Worker.chatRequest
      {| Worker.message := 0x61%N :: replicate 4000 0x20%N;
         Worker.conversation := None; Worker.model := None;
         Worker.temperature := None; Worker.maxTokens := None |}
    = inl (utf16 "消息长度不能超过4000字符").
Proof.
  split.
  - apply chatRequest_validation. cbn [Worker.message].
    apply Forall_replicate. left. apply (bool_decide_unpack _). by vm_compute.
  - apply chatRequest_validation; cbn [Worker.message].
    + intros [Ha _]%Forall_cons. revert Ha. apply (bool_decide_unpack _).
      by vm_compute.
    + cbn [length]. rewrite length_replicate. lia.
Defined.

(** The body of an accepted request. *)
Lemma chatRequest_accepted input body :
  Worker.chatRequest input = inr body →
  Worker.isBlank (Worker.message input) = false
  ∧ (length (Worker.message input) ≤ 4000)%nat
  ∧ body = {| Worker.body_model := Worker.chooseModel input;
              Worker.body_messages := Worker.buildMessages input;
              Worker.body_temperature := Worker.chooseTemperature input;
              Worker.body_max_tokens := Worker.chooseMaxTokens input |}.
Proof.
  unfold Worker.chatRequest.
  destruct (Worker.isBlank (Worker.message input)); [intros [=]|].
  case_bool_decide as Hlen; [intros [=]|].
  intros [= <-]. split; [exact eq_refl|]. split; [lia|exact eq_refl].
Qed.

(** X12. The messages of a request that is sent: the system prompt
    first; then the last ten messages of the conversation of the input
    (all of them when there are ten or fewer, none when the field is
    absent), unchanged and in order; then one message of role [user]
    whose content is the message of the input, trimmed.  That content
    is not empty, has at most 4000 code units, and neither starts nor
    ends with white space. *)
Theorem chatRequest_messages input body :
  Worker.chatRequest input = inr body →
  ∃ history text,
    Worker.body_messages body
    = Worker.systemPrompt :: history
      ++ [ {| Worker.role := utf16 "user"; Worker.content := text |} ]
    ∧ history `suffix_of` default [] (Worker.conversation input)
    ∧ length history
      = Nat.min 10 (length (default [] (Worker.conversation input)))
    ∧ text = Worker.trim (Worker.message input)
    ∧ text ≠ []
    ∧ (length text ≤ 4000)%nat
    ∧ (∀ u, head text = Some u ∨ last text = Some u →
            ¬ Worker.isWhiteSpace u).
Proof.
  intros (Hblank & Hlen & ->)%chatRequest_accepted.
  exists (match Worker.conversation input with
          | Some (m :: ms) => Worker.lastTen (m :: ms)
          | _ => []
          end), (Worker.trim (Worker.message input)).
  split; [exact eq_refl|]. split; [|split; [|split; [exact eq_refl|]]].
  - destruct (Worker.conversation input) as [[|m ms]|]; cbn [default];
      [done| apply lastTen_suffix |done].
  - destruct (Worker.conversation input) as [[|m ms]|]; cbn [default];
      [done| apply lastTen_length |done].
  - split; [|split].
    + rewrite trim_nil, <- isBlank_spec. congruence.
    + etrans; [apply trim_length | exact Hlen].
    + intros u [Hu|Hu]; [by eapply trim_head | by eapply trim_last].
Qed.

(** The sample request: ten of the twelve messages are sent. *)
Lemma chatRequest_messages_witness :
  ∃ history text,
    Worker.body_messages sample_body
    = Worker.systemPrompt :: history
      ++ [ {| Worker.role := utf16 "user"; Worker.content := text |} ]
    ∧ history `suffix_of` default [] (Worker.conversation sample_input)
    ∧ length history
      = Nat.min 10 (length (default [] (Worker.conversation sample_input)))
    ∧ text = Worker.trim (Worker.message sample_input)
    ∧ text ≠ []
    ∧ (length text ≤ 4000)%nat
    ∧ (∀ u, head text = Some u ∨ last text = Some u →
            ¬ Worker.isWhiteSpace u).
Proof.
  apply (chatRequest_messages sample_input sample_body).
  vm_compute. reflexivity.
Defined.

(** X13. The model of the request is always one of the four allowed
    models: the model of the input when it is one of them, and
    [deepseek-chat] when it is another text or absent. *)
Theorem chooseModel_allowed input :
  Worker.chooseModel input ∈ Worker.allowedModels
  ∧ (∀ m, Worker.model input = Some m → m ∈ Worker.allowedModels →
          Worker.chooseModel input = m)
  ∧ ((∀ m, Worker.model input = Some m → m ∉ Worker.allowedModels) →
     Worker.chooseModel input = utf16 "deepseek-chat").
Proof.
  assert (utf16 "deepseek-chat" ∈ Worker.allowedModels) as Hdefault
    by (apply elem_of_cons; left; exact eq_refl).
  unfold Worker.chooseModel.
  destruct (Worker.model input) as [m|]; [case_bool_decide as Hm|].
  - split; [exact Hm|]. split; [by intros ? [= <-] _|].
    intros Hnot. by destruct (Hnot m).
  - split; [exact Hdefault|]. split; [|intros _; exact eq_refl].
    intros ? [= <-] Hin. by destruct Hm.
  - split; [exact Hdefault|]. split; [intros ? [=]|intros _; exact eq_refl].
Qed.

(** [Math.max(lo, Math.min(hi, x))] *)
Lemma Qclamp_bounds (lo hi x : Q) :
  (lo <= hi)%Q → (lo <= Qmax lo (Qmin hi x) ∧ Qmax lo (Qmin hi x) <= hi)%Q.
Proof.
  intros Hle. split; [apply Q.le_max_l|].
  apply Q.max_lub; [exact Hle | apply Q.le_min_l].
Qed.

Lemma Qclamp_inside (lo hi x : Q) :
  (lo <= x)%Q → (x <= hi)%Q → (Qmax lo (Qmin hi x) == x)%Q.
Proof.
  intros Hlo Hhi. rewrite (Q.min_r hi x) by exact Hhi. by apply Q.max_r.
Qed.

(** X14. The temperature of the request lies between 0 and 2 and the
    token count between 1 and 4000, whatever the input.  A value of the
    input that is within the range is passed on as it is, with one
    exception: a temperature of 0, which is falsy, becomes the default
    0.7, as an absent one does; and a token count that is absent, or 0,
    becomes the default 1000. *)
Theorem chat_parameters_clamped input :
  (0 <= Worker.chooseTemperature input ∧ Worker.chooseTemperature input <= 2)%Q
  ∧ 1 ≤ Worker.chooseMaxTokens input ≤ 4000
  ∧ (∀ t, Worker.temperature input = Some t → ¬ (t == 0)%Q →
          (0 <= t)%Q → (t <= 2)%Q →
          (Worker.chooseTemperature input == t)%Q)
  ∧ (∀ t, Worker.temperature input = Some t → (t == 0)%Q →
          (Worker.chooseTemperature input == 0.7)%Q)
  ∧ (Worker.temperature input = None →
     (Worker.chooseTemperature input == 0.7)%Q)
  ∧ (∀ n, Worker.maxTokens input = Some n → 1 ≤ n ≤ 4000 →
          Worker.chooseMaxTokens input = n)
  ∧ (Worker.maxTokens input = None ∨ Worker.maxTokens input = Some 0 →
     Worker.chooseMaxTokens input = 1000).
Proof.
  unfold Worker.chooseTemperature, Worker.chooseMaxTokens.
  split; [by apply Qclamp_bounds|]. split; [lia|].
  split; [|split; [|split; [|split]]].
  - intros t -> Hnz Hlo Hhi. cbn [Worker.orQ].
    destruct (Qeq_bool t 0) eqn:Hz; [by apply Qeq_bool_eq in Hz|].
    by apply Qclamp_inside.
  - intros t -> Hz. cbn [Worker.orQ].
    rewrite (Qeq_eq_bool _ _ Hz). by apply Qclamp_inside.
  - intros ->. by apply Qclamp_inside.
  - intros n -> Hn. cbn [Worker.orZ]. destruct n; lia.
  - intros [->| ->]; cbn [Worker.orZ]; lia.
Qed.

(** A temperature of 0 and a token count of 0 give the defaults. *)
Lemma chat_parameters_clamped_witness :
  let input :=
    {| Worker.message := utf16 "hi"; Worker.conversation := None;
       Worker.model := None; Worker.temperature := Some (0 # 1)%Q;
       Worker.maxTokens := Some 0 |} in
  (Worker.chooseTemperature input == 0.7)%Q
  ∧ Worker.chooseMaxTokens input = 1000.
Proof.
  intros input.
  destruct (chat_parameters_clamped input) as (_ & _ & _ & Hzero & _ & _ & Hmax).
  split; [by apply (Hzero (0 # 1)%Q) | apply Hmax; by right].
Defined.

(** ** The answer of the chat resolver *)

(** None of the error texts is empty. *)
Lemma statusMessage_nonempty status : Worker.statusMessage status ≠ [].
Proof.
  unfold Worker.statusMessage.
  repeat match goal with
         | |- context [bool_decide ?P] => destruct (bool_decide P)
         end;
    try apply app_head_nonempty; apply utf16_cons_nonempty; vm_compute; eauto.
Qed.

Lemma thrownMessage_nonempty e : Worker.thrownMessage e ≠ [].
Proof.
  unfold Worker.thrownMessage. apply app_head_nonempty, utf16_cons_nonempty.
  vm_compute. eauto.
Qed.

Lemma chatRequest_error_nonempty input e :
  Worker.chatRequest input = inl e → e ≠ [].
Proof.
  unfold Worker.chatRequest.
  destruct (Worker.isBlank _); [|case_bool_decide]; intros [= <-];
    apply utf16_cons_nonempty; vm_compute; eauto.
Qed.

Lemma failure_isFailure e now : e ≠ [] → isFailure (Worker.failure e now).
Proof. intros He. repeat split. by exists e. Qed.

(** X15. The answer of the [chat] resolver, whatever the input and
    whatever the network does.  Its time stamp is the time of the
    answer.  It is a success exactly when the input passed the
    validation, the provider answered with an ok status, and the first
    choice of its answer holds a text that is not only white space.  A
    success carries the text of that first choice, trimmed, which is
    not empty, no error, the model that was requested and the usage
    counts of the answer; a failure carries no message, no model and no
    usage, and an error text that is not empty. *)
Theorem chat_response_shape input net now :
  Worker.res_timestamp (Worker.chat input net now) = now
  ∧ (Worker.res_success (Worker.chat input net now) = true
     ↔ (∃ body, Worker.chatRequest input = inr body)
       ∧ ∃ data c cs,
           net = Worker.Ok data ∧ Worker.choices data = Some (c :: cs)
           ∧ ¬ Forall Worker.isWhiteSpace (Worker.choice_content c))
  ∧ (Worker.res_success (Worker.chat input net now) = true →
     ∃ data c cs,
       net = Worker.Ok data ∧ Worker.choices data = Some (c :: cs)
       ∧ Worker.res_message (Worker.chat input net now)
         = Some (Worker.trim (Worker.choice_content c))
       ∧ Worker.trim (Worker.choice_content c) ≠ []
       ∧ Worker.res_error (Worker.chat input net now) = None
       ∧ Worker.res_model (Worker.chat input net now)
         = Some (Worker.chooseModel input)
       ∧ Worker.res_usage (Worker.chat input net now)
         = Some (Worker.usageOf data))
  ∧ (Worker.res_success (Worker.chat input net now) = false →
     Worker.res_message (Worker.chat input net now) = None
     ∧ Worker.res_model (Worker.chat input net now) = None
     ∧ Worker.res_usage (Worker.chat input net now) = None
     ∧ ∃ e, Worker.res_error (Worker.chat input net now) = Some e ∧ e ≠ []).
Proof.
  assert (∀ r, isFailure r →
    Worker.res_timestamp r = now →
    Worker.res_timestamp r = now
    ∧ (Worker.res_success r = true ↔ False)
    ∧ (Worker.res_success r = true → False)
    ∧ (Worker.res_success r = false →
       Worker.res_message r = None ∧ Worker.res_model r = None
       ∧ Worker.res_usage r = None
       ∧ ∃ e, Worker.res_error r = Some e ∧ e ≠ [])) as Hfail.
  { intros r (Hs & Hm & Hmo & Hu & He) Ht. rewrite Hs.
    split; [exact Ht|]. split; [split; [intros [=]|intros []]|].
    split; [intros [=]|]. intros _. auto. }
  unfold Worker.chat.
  destruct (Worker.chatRequest input) as [e|body] eqn:Hreq.
  { destruct (Hfail (Worker.failure e now)) as (H1 & H2 & H3 & H4);
      [apply failure_isFailure; by eapply chatRequest_error_nonempty
      |exact eq_refl|].
    split; [exact H1|]. split; [|split; [intros H; by destruct (H3 H)|exact H4]].
    rewrite H2. split; [intros []|]. by intros [[? [=]] _]. }
  apply chatRequest_accepted in Hreq as (_ & _ & ->).
  cbn [Worker.body_model].
  destruct net as [e|status|data].
  - destruct (Hfail (Worker.failure (Worker.thrownMessage e) now))
      as (H1 & H2 & H3 & H4);
      [apply failure_isFailure, thrownMessage_nonempty|exact eq_refl|].
    split; [exact H1|]. split; [|split; [intros H; by destruct (H3 H)|exact H4]].
    rewrite H2. split; [intros []|]. by intros (_ & ? & ? & ? & [=] & _).
  - destruct (Hfail (Worker.failure (Worker.statusMessage status) now))
      as (H1 & H2 & H3 & H4);
      [apply failure_isFailure, statusMessage_nonempty|exact eq_refl|].
    split; [exact H1|]. split; [|split; [intros H; by destruct (H3 H)|exact H4]].
    rewrite H2. split; [intros []|]. by intros (_ & ? & ? & ? & [=] & _).
  - destruct (Worker.choices data) as [[|c cs]|] eqn:Hchoices.
    + destruct (Hfail (Worker.failure (utf16 "DeepSeek API 返回空响应") now))
        as (H1 & H2 & H3 & H4);
        [apply failure_isFailure, utf16_cons_nonempty; vm_compute; eauto
        |exact eq_refl|].
      split; [exact H1|].
      split; [|split; [intros H; by destruct (H3 H)|exact H4]].
      rewrite H2. split; [intros []|].
      intros (_ & ? & ? & ? & [= <-] & Hc & _). congruence.
    + cbv zeta.
      destruct (Worker.isBlank (Worker.choice_content c)) eqn:Hblank.
      * destruct (Hfail (Worker.failure (utf16 "AI 返回空消息") now))
          as (H1 & H2 & H3 & H4);
          [apply failure_isFailure, utf16_cons_nonempty; vm_compute; eauto
          |exact eq_refl|].
        split; [exact H1|].
        split; [|split; [intros H; by destruct (H3 H)|exact H4]].
        rewrite H2. split; [intros []|].
        intros (_ & ? & ? & ? & [= <-] & Hc & Hnot).
        rewrite Hchoices in Hc. injection Hc as <- <-.
        apply Hnot, isBlank_spec, Hblank.
      * cbn [Worker.res_timestamp Worker.res_success Worker.res_message
             Worker.res_error Worker.res_model Worker.res_usage].
        assert (¬ Forall Worker.isWhiteSpace (Worker.choice_content c))
          as Hnot by (rewrite <- isBlank_spec; congruence).
        split; [exact eq_refl|]. split; [|split; [|intros [=]]].
        -- split; [intros _|intros _; exact eq_refl].
           split; [by eexists|]. by exists data, c, cs.
        -- intros _. exists data, c, cs.
           split; [exact eq_refl|]. split; [exact Hchoices|].
           split; [exact eq_refl|]. split; [by rewrite trim_nil|].
           split; [exact eq_refl|]. split; exact eq_refl.
    + destruct (Hfail (Worker.failure (utf16 "DeepSeek API 返回空响应") now))
        as (H1 & H2 & H3 & H4);
        [apply failure_isFailure, utf16_cons_nonempty; vm_compute; eauto
        |exact eq_refl|].
      split; [exact H1|].
      split; [|split; [intros H; by destruct (H3 H)|exact H4]].
      rewrite H2. split; [intros []|].
      intros (_ & ? & ? & ? & [= <-] & Hc & _). congruence.
Qed.

(** The sample request and the sample answer give a success, with the
    text of the answer without its blanks, and usage counts of 0 as the
    answer has none. *)
Lemma chat_response_shape_witness :
  let answer :=
    Worker.chat sample_input (Worker.Ok sample_data)
      (utf16 "2024-01-01T00:00:00.000Z") in
  Worker.res_message answer = Some (utf16 "A unit of text.")
  ∧ Worker.res_error answer = None
  ∧ Worker.res_model answer = Some (utf16 "deepseek-coder")
  ∧ Worker.res_usage answer
    = Some {| Worker.promptTokens := 0; Worker.completionTokens := 0;
              Worker.totalTokens := 0 |}.
Proof.
  intros answer. subst answer.
  destruct (chat_response_shape sample_input (Worker.Ok sample_data)
              (utf16 "2024-01-01T00:00:00.000Z")) as (_ & _ & Hsuccess & _).
  destruct Hsuccess as (data & c & cs & Hnet & Hc & Hm & _ & He & Hmo & Hu);
    [vm_compute; reflexivity|].
  injection Hnet as <-. injection Hc as <- <-.
  rewrite Hm, He, Hmo, Hu. vm_compute. repeat split.
Defined.
